(** * ping-tool-backend: the target validator and the command runner of server.js

    A shallow embedding of [validateTarget], [runCommand] and the two POST
    handlers of [src/server.js], and the properties of the written
    specification that concern them.

    Modelling choices, all visible in the definitions below:
    - a JavaScript string is the list of its UTF-16 code units ([N]);
    - a JavaScript value is a tagged union ([value]); numbers are IEEE-754
      doubles, which are Rocq's primitive floats;
    - a regular-expression literal is a syntax tree ([regex]) run by the
      backtracking matcher of ECMAScript 22.2.2 in continuation-passing
      style; [RegExp.prototype.test] goes through [RegExpBuiltinExec] with
      its [lastIndex] bookkeeping;
    - an abrupt completion (a throw) is explicit ([completion]);
    - [exec], [new Date().toISOString()], [process.platform] and the response
      object are the events of a small program monad ([prog]); the
      environment answers them.  [exec] is taken at its documented contract:
      it calls its callback once, with [(error, stdout, stderr)]. *)

From Stdlib Require Import List Bool Arith NArith ZArith Lia String Ascii PrimFloat.
Import ListNotations.

Set Implicit Arguments.
Local Set Warnings "-register-all".
Local Open Scope list_scope.

(* ================================================================== *)
(** ** Strings and values *)

Definition code_unit := N.
Definition jsstring := list code_unit.

(** The code unit of an ASCII character, and a string literal of the source. *)
Definition cu (a : ascii) : code_unit := N_of_ascii a.
Arguments cu : simpl never.
Definition lit (s : string) : jsstring := map cu (list_ascii_of_string s).
Arguments lit : simpl never.

Inductive value : Type :=
| VUndefined
| VNull
| VBoolean (b : bool)
| VNumber (x : float)
| VBigInt (z : Z)
| VSymbol (description : jsstring)
| VString (s : jsstring)
| VObject (props : list (string * value))
| VArray (elems : list value)
| VFunction (name : jsstring).

(** ECMAScript 7.1.2 ToBoolean. *)
Definition ToBoolean (v : value) : bool :=
  match v with
  | VUndefined | VNull => false
  | VBoolean b => b
  | VNumber x => negb ((x =? 0)%float || negb (x =? x)%float)
  | VBigInt z => negb (z =? 0)%Z
  | VString s => match s with [] => false | _ :: _ => true end
  | VSymbol _ | VObject _ | VArray _ | VFunction _ => true
  end.

(** ECMAScript 13.5.3 the [typeof] operator. *)
Definition typeof (v : value) : string :=
  match v with
  | VUndefined => "undefined"
  | VNull => "object"
  | VBoolean _ => "boolean"
  | VNumber _ => "number"
  | VBigInt _ => "bigint"
  | VSymbol _ => "symbol"
  | VString _ => "string"
  | VObject _ | VArray _ => "object"
  | VFunction _ => "function"
  end.

(** Completion records: a normal result or a thrown value. *)
Inductive completion (A : Type) : Type :=
| Normal (a : A)
| Throw (e : value).
Arguments Normal {A} a.
Arguments Throw {A} e.

Definition cbind {A B} (c : completion A) (f : A -> completion B) : completion B :=
  match c with
  | Normal a => f a
  | Throw e => Throw e
  end.

Declare Scope completion_scope.
Delimit Scope completion_scope with completion.
Notation "x <- c ;; k" := (cbind c (fun x => k))
  (at level 61, c at next level, right associativity) : completion_scope.
Notation "' p <- c ;; k" := (cbind c (fun x => let p := x in k))
  (at level 61, p pattern, c at next level, right associativity) : completion_scope.

(** ECMAScript 7.1.17 ToString.  On a string it is the identity.  On any
    other value the conversion depends on the value's type and, for
    objects, on user code ([toString], [valueOf]) that may throw; it is
    left to the parameter [other]. *)
Definition ToString (other : value -> completion jsstring) (v : value)
  : completion jsstring :=
  match v with
  | VString s => Normal s
  | _ => other v
  end.

(* ================================================================== *)
(** ** Regular expressions (ECMAScript 22.2) *)

Inductive class_atom : Type :=
| ClassChar (c : code_unit)
| ClassRange (lo hi : code_unit).

(** Pattern syntax: the fragment used by the two literals of the source.
    [Quant r min max] is a greedy quantifier; [max = None] is unbounded. *)
Inductive regex : Type :=
| Empty
| AssertStart                         (* ^ *)
| AssertEnd                           (* $ *)
| Char (c : code_unit)                (* a pattern character, or an escape such as \. *)
| CharClass (atoms : list class_atom) (* [...] *)
| Seq (r1 r2 : regex)
| Alt (r1 r2 : regex)                 (* r1|r2 *)
| Group (r : regex)                   (* (r) and (?:r) *)
| Quant (r : regex) (min : nat) (max : option nat).

Definition atom_mem (ch : code_unit) (a : class_atom) : bool :=
  match a with
  | ClassChar c => (ch =? c)%N
  | ClassRange lo hi => ((lo <=? ch) && (ch <=? hi))%N
  end.

Definition class_mem (atoms : list class_atom) (ch : code_unit) : bool :=
  existsb (atom_mem ch) atoms.

(** A match state: the index reached and the input that remains after it. *)
Record MatchState : Type := mkState { endIndex : nat; remaining : jsstring }.

Definition MatcherContinuation := MatchState -> option MatchState.
Definition Matcher := MatchState -> MatcherContinuation -> option MatchState.

(** 22.2.2.3.1 RepeatMatcher.  [fuel] is the number of iterations still
    allowed ([max]).  For an unbounded quantifier the caller passes
    [min + length (remaining x)]: once [min] has reached zero an iteration
    that consumes nothing is rejected (step 2.b), so no more iterations than
    that can succeed. *)
Fixpoint RepeatMatcher (m : Matcher) (fuel min : nat) (x : MatchState)
    (c : MatcherContinuation) : option MatchState :=
  match fuel with
  | O => c x
  | S fuel' =>
      let d : MatcherContinuation := fun y =>
        if (min =? 0) && (endIndex y =? endIndex x) then None
        else RepeatMatcher m fuel' (pred min) y c in
      if negb (min =? 0) then m x d
      else match m x d with
           | Some z => Some z
           | None => c x
           end
  end.

(** 22.2.2 CompileSubpattern, forward direction. *)
Fixpoint matcher (r : regex) : Matcher :=
  fun x c =>
  match r with
  | Empty => c x
  | AssertStart => if endIndex x =? 0 then c x else None
  | AssertEnd => match remaining x with [] => c x | _ :: _ => None end
  | Char ch =>
      match remaining x with
      | [] => None
      | a :: tl => if (a =? ch)%N then c (mkState (S (endIndex x)) tl) else None
      end
  | CharClass atoms =>
      match remaining x with
      | [] => None
      | a :: tl => if class_mem atoms a then c (mkState (S (endIndex x)) tl) else None
      end
  | Seq r1 r2 => matcher r1 x (fun y => matcher r2 y c)
  | Alt r1 r2 =>
      match matcher r1 x c with
      | Some z => Some z
      | None => matcher r2 x c
      end
  | Group r1 => matcher r1 x c
  | Quant r1 min max =>
      let fuel := match max with
                  | Some n => n
                  | None => min + List.length (remaining x)
                  end in
      RepeatMatcher (matcher r1) fuel min x c
  end.

(** A RegExp object: the compiled pattern, its flags and [lastIndex]. *)
Record RegExp : Type := mkRegExp {
  source : regex;
  global : bool;
  sticky : bool;
  lastIndex : nat
}.

(** Evaluation of a literal [/pattern/] without flags. *)
Definition RegExpLiteral (pattern : regex) : RegExp :=
  mkRegExp pattern false false 0.

Definition set_lastIndex (R : RegExp) (i : nat) : RegExp :=
  mkRegExp (source R) (global R) (sticky R) i.

(** The loop of 22.2.7.2 RegExpBuiltinExec (steps 10-11): try the matcher
    at [i]; on failure give up if sticky, otherwise advance by one. *)
Fixpoint exec_loop (r : regex) (stickyFlag : bool) (i : nat) (suffix : jsstring)
  : option MatchState :=
  match matcher r (mkState i suffix) (fun y => Some y) with
  | Some y => Some y
  | None =>
      if stickyFlag then None
      else match suffix with
           | [] => None
           | _ :: tl => exec_loop r stickyFlag (S i) tl
           end
  end.

Definition RegExpBuiltinExec (R : RegExp) (S : jsstring)
  : option MatchState * RegExp :=
  let useLast := global R || sticky R in
  let start := if useLast then lastIndex R else 0 in
  if List.length S <? start then
    (None, if useLast then set_lastIndex R 0 else R)
  else
    match exec_loop (source R) (sticky R) start (skipn start S) with
    | None => (None, if useLast then set_lastIndex R 0 else R)
    | Some y => (Some y, if useLast then set_lastIndex R (endIndex y) else R)
    end.

(** 22.2.6.16 RegExp.prototype.test: ToString of the argument, then
    RegExpBuiltinExec; the result is whether a match was found.  The
    (possibly updated) RegExp object is returned alongside. *)
Definition RegExp_test (other : value -> completion jsstring) (R : RegExp)
    (arg : value) : completion (bool * RegExp) :=
  (s <- ToString other arg ;;
   let '(m, R') := RegExpBuiltinExec R s in
   Normal (match m with Some _ => true | None => false end, R'))%completion.

(* ================================================================== *)
(** ** validateTarget (server.js, lines 24-32) *)

(** Sequence of terms of one alternative. *)
Definition terms (ts : list regex) : regex := fold_right Seq Empty ts.

(** [[a-zA-Z0-9]] *)
Definition alnum_class : list class_atom :=
  [ClassRange (cu "a") (cu "z"); ClassRange (cu "A") (cu "Z");
   ClassRange (cu "0") (cu "9")].

(** [[a-zA-Z0-9-]] *)
Definition alnum_hyphen_class : list class_atom :=
  [ClassRange (cu "a") (cu "z"); ClassRange (cu "A") (cu "Z");
   ClassRange (cu "0") (cu "9"); ClassChar (cu "-")].

(** [([a-zA-Z0-9-]{0,61}[a-zA-Z0-9])?] *)
Definition label_tail : regex :=
  Quant (Group (terms [Quant (CharClass alnum_hyphen_class) 0 (Some 61);
                       CharClass alnum_class]))
        0 (Some 1).

(** [(\.[a-zA-Z0-9]([a-zA-Z0-9-]{0,61}[a-zA-Z0-9])?)] *)
Definition dot_label : regex :=
  Group (terms [Char (cu "."); CharClass alnum_class; label_tail]).

(** [/^[a-zA-Z0-9]([a-zA-Z0-9-]{0,61}[a-zA-Z0-9])?(\.[a-zA-Z0-9]([a-zA-Z0-9-]{0,61}[a-zA-Z0-9])?)*$/] *)
Definition domainRegex_pattern : regex :=
  terms [AssertStart;
         CharClass alnum_class;
         label_tail;
         Quant dot_label 0 None;
         AssertEnd].

Definition digit_range (lo hi : ascii) : regex :=
  CharClass [ClassRange (cu lo) (cu hi)].

(** [(?:25[0-5]|2[0-4][0-9]|[01]?[0-9][0-9]?)] *)
Definition octet_pattern : regex :=
  Group (Alt (terms [Char (cu "2"); Char (cu "5"); digit_range "0" "5"])
        (Alt (terms [Char (cu "2"); digit_range "0" "4"; digit_range "0" "9"])
             (terms [Quant (CharClass [ClassChar (cu "0"); ClassChar (cu "1")])
                           0 (Some 1);
                     digit_range "0" "9";
                     Quant (digit_range "0" "9") 0 (Some 1)]))).

(** [(?:(?:25[0-5]|2[0-4][0-9]|[01]?[0-9][0-9]?)\.)] *)
Definition octet_dot : regex :=
  Group (terms [octet_pattern; Char (cu ".")]).

(** [/^(?:(?:25[0-5]|2[0-4][0-9]|[01]?[0-9][0-9]?)\.){3}(?:25[0-5]|2[0-4][0-9]|[01]?[0-9][0-9]?)$/] *)
Definition ipRegex_pattern : regex :=
  terms [AssertStart;
         Quant octet_dot 3 (Some 3);
         octet_pattern;
         AssertEnd].

Section Validator.
(** ToString on the values that are not strings (see [ToString]). *)
Variable other : value -> completion jsstring.

Definition validateTarget (target : value) : completion bool :=
  (* if (!target || typeof target !== 'string') return false; *)
  if negb (ToBoolean target) || negb (typeof target =? "string")%string
  then Normal false
  else
    let domainRegex := RegExpLiteral domainRegex_pattern in
    let ipRegex := RegExpLiteral ipRegex_pattern in
    (* return domainRegex.test(target) || ipRegex.test(target); *)
    ('(d, _) <- RegExp_test other domainRegex target ;;
     if d then Normal true
     else '(i, _) <- RegExp_test other ipRegex target ;;
          Normal i)%completion.
End Validator.

(* ================================================================== *)
(** ** What a pattern matches, declaratively *)

(** [Iter L n i w rest]: [w] is [n] consecutive pieces, each in [L] at
    the index where it starts. *)
Fixpoint Iter (L : nat -> jsstring -> jsstring -> Prop) (n i : nat)
    (w rest : jsstring) : Prop :=
  match n with
  | O => w = []
  | S n' => exists w1 w2, w = w1 ++ w2 /\ L i w1 (w2 ++ rest)
                          /\ Iter L n' (i + List.length w1) w2 rest
  end.

(** [Matches r i w rest]: pattern [r] can consume exactly [w] when it
    starts at index [i] of the input and [rest] follows [w]. *)
Fixpoint Matches (r : regex) (i : nat) (w rest : jsstring) : Prop :=
  match r with
  | Empty => w = []
  | AssertStart => w = [] /\ i = 0
  | AssertEnd => w = [] /\ rest = []
  | Char ch => w = [ch]
  | CharClass atoms => exists a, w = [a] /\ class_mem atoms a = true
  | Seq r1 r2 =>
      exists w1 w2, w = w1 ++ w2 /\ Matches r1 i w1 (w2 ++ rest)
                    /\ Matches r2 (i + List.length w1) w2 rest
  | Alt r1 r2 => Matches r1 i w rest \/ Matches r2 i w rest
  | Group r1 => Matches r1 i w rest
  | Quant r1 min max =>
      exists n, min <= n
                /\ match max with Some mx => n <= mx | None => True end
                /\ Iter (Matches r1) n i w rest
  end.

(** A quantifier [{min,max}] with [max < min] is a syntax error. *)
Fixpoint well_formed (r : regex) : bool :=
  match r with
  | Seq r1 r2 | Alt r1 r2 => well_formed r1 && well_formed r2
  | Group r1 => well_formed r1
  | Quant r1 min max =>
      well_formed r1 && match max with Some mx => min <=? mx | None => true end
  | _ => true
  end.

(* ================================================================== *)
(** ** The grammars of the specification (section 4.1), in its words *)

Module Grammar.

Definition in_range (lo hi : ascii) (c : code_unit) : bool :=
  ((cu lo <=? c) && (c <=? cu hi))%N.

Definition is_digit (c : code_unit) : bool := in_range "0" "9" c.

Definition is_alnum (c : code_unit) : bool :=
  in_range "a" "z" c || in_range "A" "Z" c || is_digit c.

Definition is_hyphen (c : code_unit) : bool := (c =? cu "-")%N.

Definition is_dot (c : code_unit) : bool := (c =? cu ".")%N.

(** The pieces of a string between its dots. *)
Fixpoint split_dots (s : jsstring) : list jsstring :=
  match s with
  | [] => [[]]
  | c :: tl =>
      if is_dot c then [] :: split_dots tl
      else match split_dots tl with
           | [] => [[c]]
           | piece :: pieces => (c :: piece) :: pieces
           end
  end.

(** A label: 1-63 characters, alphanumeric or hyphen, and neither the
    first nor the last character is a hyphen. *)
Definition label (l : jsstring) : bool :=
  (1 <=? List.length l) && (List.length l <=? 63)
  && forallb (fun c => is_alnum c || is_hyphen c) l
  && negb (is_hyphen (hd 0%N l))
  && negb (is_hyphen (last l 0%N)).

(** Hostname grammar: a dot-separated sequence of labels. *)
Definition hostname (s : jsstring) : bool := forallb label (split_dots s).

Definition decimal_value (l : jsstring) : N :=
  fold_left (fun acc c => (10 * acc + (c - cu "0"))%N) l 0%N.

(** An octet: one to three decimal digits whose value is 0-255. *)
Definition octet (l : jsstring) : bool :=
  (1 <=? List.length l) && (List.length l <=? 3)
  && forallb is_digit l
  && (decimal_value l <=? 255)%N.

(** IPv4 grammar: four dot-separated octets. *)
Definition ipv4 (s : jsstring) : bool :=
  (List.length (split_dots s) =? 4) && forallb octet (split_dots s).

(** The character set [[A-Za-z0-9.-]]. *)
Definition safe_char (c : code_unit) : bool :=
  is_alnum c || is_dot c || is_hyphen c.

End Grammar.

(* ================================================================== *)
(** ** The environment of a request: child_process.exec, the clock,
       process.platform and the response object *)

(** The error object that [exec] hands to its callback: [message] is the
    only field the source reads; [code], [killed] and [signal] tell the
    three failures apart (non-zero exit, kill, spawn failure). *)
Record ExecException : Type := mkExecException {
  message : jsstring;
  code : option value;
  killed : bool;
  signal : option jsstring
}.

(** The arguments of the callback [(error, stdout, stderr)]; [error] is
    [null] ([None]) exactly when the process exited with status 0. *)
Record exec_result : Type := mkExecResult {
  error : option ExecException;
  stdout : jsstring;
  stderr : jsstring
}.

(** Programs over the events of a request.  [Raise] is an exception that
    nothing has caught yet (a rejected promise, once it leaves an async
    function). *)
Inductive prog (A : Type) : Type :=
| Ret (a : A)
| Raise (e : value)
| Exec (command : jsstring) (timeout : Z) (k : exec_result -> prog A)
| DateNowISO (k : jsstring -> prog A)        (* new Date().toISOString() *)
| Platform (k : jsstring -> prog A)          (* process.platform *)
| Respond (status : Z) (body : value) (k : prog A).  (* res.status(s).json(body) *)
Arguments Ret {A} a.
Arguments Raise {A} e.
Arguments Exec {A} command timeout k.
Arguments DateNowISO {A} k.
Arguments Platform {A} k.
Arguments Respond {A} status body k.

Fixpoint bind {A B} (p : prog A) (f : A -> prog B) : prog B :=
  match p with
  | Ret a => f a
  | Raise e => Raise e
  | Exec c t k => Exec c t (fun r => bind (k r) f)
  | DateNowISO k => DateNowISO (fun ts => bind (k ts) f)
  | Platform k => Platform (fun p => bind (k p) f)
  | Respond s b k => Respond s b (bind k f)
  end.

(** [try { p } catch (e) { h e }] *)
Fixpoint try_catch {A} (p : prog A) (h : value -> prog A) : prog A :=
  match p with
  | Ret a => Ret a
  | Raise e => h e
  | Exec c t k => Exec c t (fun r => try_catch (k r) h)
  | DateNowISO k => DateNowISO (fun ts => try_catch (k ts) h)
  | Platform k => Platform (fun p => try_catch (k p) h)
  | Respond s b k => Respond s b (try_catch k h)
  end.

Definition lift {A} (c : completion A) : prog A :=
  match c with
  | Normal a => Ret a
  | Throw e => Raise e
  end.

Declare Scope prog_scope.
Delimit Scope prog_scope with prog.
Notation "x <- c ;; k" := (bind c (fun x => k))
  (at level 61, c at next level, right associativity) : prog_scope.

(** A settled promise. *)
Inductive settled : Type :=
| Fulfilled (v : value)
| Rejected (reason : value).

(** [await p]: the value of a fulfilled promise, a throw of the reason of
    a rejected one. *)
Definition await (p : settled) : prog value :=
  match p with
  | Fulfilled v => Ret v
  | Rejected reason => Raise reason
  end.

(** [a || b] *)
Definition js_or (a b : value) : value := if ToBoolean a then a else b.

Fixpoint jsstring_eqb (a b : jsstring) : bool :=
  match a, b with
  | [], [] => true
  | x :: a', y :: b' => (x =? y)%N && jsstring_eqb a' b'
  | _, _ => false
  end.

(* ================================================================== *)
(** ** runCommand (server.js, lines 35-54) *)

(** [function runCommand(command, timeout = 30000)]: the promise settles
    in the callback of [exec(command, { timeout }, callback)].  An absent
    second argument is [None]. *)
Definition runCommand (command : jsstring) (timeout_arg : option Z) : prog settled :=
  let timeout := match timeout_arg with Some t => t | None => 30000%Z end in
  Exec command timeout (fun r =>
    match error r with
    | Some err =>
        (* reject({ success: false, error: error.message, timestamp: ... }) *)
        DateNowISO (fun ts =>
          Ret (Rejected (VObject [("success", VBoolean false);
                                  ("error", VString (message err));
                                  ("timestamp", VString ts)]%string)))
    | None =>
        (* resolve({ success: true, output: stdout || stderr, timestamp: ... }) *)
        DateNowISO (fun ts =>
          Ret (Fulfilled (VObject [("success", VBoolean true);
                                   ("output", js_or (VString (stdout r))
                                                    (VString (stderr r)));
                                   ("timestamp", VString ts)]%string)))
    end).

(* ================================================================== *)
(** ** The POST handlers (server.js, lines 66-113) *)

Record request : Type := mkRequest { body : value }.

Definition TypeError : value :=
  VObject [("name", VString (lit "TypeError"))]%string.

Fixpoint get_property (key : string) (props : list (string * value)) : value :=
  match props with
  | [] => VUndefined
  | (k, v) :: rest => if (k =? key)%string then v else get_property key rest
  end.

(** [const { target } = req.body;] throws on [undefined] and [null]; a
    value without a [target] property gives [undefined]. *)
Definition destructure_target (b : value) : completion value :=
  match b with
  | VUndefined | VNull => Throw TypeError
  | VObject props => Normal (get_property "target" props)
  | _ => Normal VUndefined
  end.

(** The body of the 400 response. *)
Definition invalid_target_body : value :=
  VObject [("success", VBoolean false);
           ("error", VString (lit "Invalid target. Please provide a valid domain or IP address."))]%string.

Section Handlers.
Variable other : value -> completion jsstring.

(** A template literal [`prefix${v}`]. *)
Definition template (prefix : string) (v : value) : completion jsstring :=
  (s <- ToString other v ;; Normal (lit prefix ++ s))%completion.

(** [app.post('/api/ping', async (req, res) => ...)] *)
Definition ping_handler (req : request) : prog unit :=
  (target <- lift (destructure_target (body req)) ;;
   valid <- lift (validateTarget other target) ;;
   if negb valid then
     Respond 400 invalid_target_body (Ret tt)
   else
     try_catch
       (platform <- Platform (fun p => Ret p) ;;
        let isWindows := jsstring_eqb platform (lit "win32") in
        command <- lift (if isWindows
                         then template "ping -n 4 " target
                         else template "ping -c 4 " target) ;;
        promise <- runCommand command None ;;
        result <- await promise ;;
        Respond 200 result (Ret tt))
       (fun error => Respond 500 error (Ret tt)))%prog.

(** [app.post('/api/traceroute', async (req, res) => ...)] *)
Definition traceroute_handler (req : request) : prog unit :=
  (target <- lift (destructure_target (body req)) ;;
   valid <- lift (validateTarget other target) ;;
   if negb valid then
     Respond 400 invalid_target_body (Ret tt)
   else
     try_catch
       (platform <- Platform (fun p => Ret p) ;;
        let isWindows := jsstring_eqb platform (lit "win32") in
        command <- lift (if isWindows
                         then template "tracert " target
                         else template "traceroute " target) ;;
        promise <- runCommand command (Some 60000%Z) ;;
        result <- await promise ;;
        Respond 200 result (Ret tt))
       (fun error => Respond 500 error (Ret tt)))%prog.
End Handlers.

(** What the environment answers, and what an execution leaves behind. *)
Record environment : Type := mkEnvironment {
  process_platform : jsstring;
  exec_answer : jsstring -> Z -> exec_result;
  clock : jsstring
}.

Inductive action : Type :=
| Spawn (command : jsstring) (timeout : Z)
| Send (status : Z) (body : value).

Fixpoint run {A} (env : environment) (p : prog A) : list action * completion A :=
  match p with
  | Ret a => ([], Normal a)
  | Raise e => ([], Throw e)
  | Exec c t k =>
      let '(tr, r) := run env (k (exec_answer env c t)) in (Spawn c t :: tr, r)
  | DateNowISO k => run env (k (clock env))
  | Platform k => run env (k (process_platform env))
  | Respond s b k =>
      let '(tr, r) := run env k in (Send s b :: tr, r)
  end.

(** The command lines an execution spawned, in order. *)
Fixpoint commands (tr : list action) : list jsstring :=
  match tr with
  | [] => []
  | Spawn c _ :: rest => c :: commands rest
  | Send _ _ :: rest => commands rest
  end.

(** The deadlines handed to [exec], in order. *)
Fixpoint timeouts (tr : list action) : list Z :=
  match tr with
  | [] => []
  | Spawn _ t :: rest => t :: timeouts rest
  | Send _ _ :: rest => timeouts rest
  end.

(* ================================================================== *)
(** ** Auxiliary notions used in the statements *)

(** A matcher agrees with a declarative language. *)
Definition matcher_sound_complete (m : Matcher)
    (L : nat -> jsstring -> jsstring -> Prop) : Prop :=
  forall x c,
    m x c <> None <->
    exists w rest, remaining x = w ++ rest /\ L (endIndex x) w rest
                   /\ c (mkState (endIndex x + List.length w) rest) <> None.

(** The optional tail of a label, [([a-zA-Z0-9-]{0,61}[a-zA-Z0-9])?]. *)
Definition tail_ok (t : jsstring) : Prop :=
  t = [] \/
  exists m d, t = m ++ [d] /\ List.length m <= 61
              /\ forallb (fun c => Grammar.is_alnum c || Grammar.is_hyphen c) m = true
              /\ Grammar.is_alnum d = true.

(** Labels put back together with dots. *)
Definition join_dots (l0 : jsstring) (ls : list jsstring) : jsstring :=
  l0 ++ List.concat (map (cons (cu ".")) ls).

Definition no_dot (l : jsstring) : bool :=
  forallb (fun c => negb (Grammar.is_dot c)) l.

(** One [\.label] group. *)
Definition dot_then_label (w : jsstring) : bool :=
  match w with
  | [] => false
  | c :: l => Grammar.is_dot c && Grammar.label l
  end.

(** Substring search, and whether a failure message speaks of a timeout
    in any of the usual spellings, whatever the letter case. *)
Fixpoint is_prefix (p s : jsstring) : bool :=
  match p, s with
  | [], _ => true
  | x :: p', y :: s' => (x =? y)%N && is_prefix p' s'
  | _ :: _, [] => false
  end.

Fixpoint is_infix (p s : jsstring) : bool :=
  is_prefix p s || match s with
                   | [] => false
                   | _ :: s' => is_infix p s'
                   end.

Definition to_lower (c : code_unit) : code_unit :=
  if Grammar.in_range "A" "Z" c then (c + 32)%N else c.

Definition mentions_timeout (msg : jsstring) : bool :=
  let m := map to_lower msg in
  is_infix (lit "timed out") m || is_infix (lit "timedout") m
  || is_infix (lit "timeout") m || is_infix (lit "time out") m.

(** The two envelopes of [runCommand]. *)
Definition failure_envelope (msg ts : jsstring) : value :=
  VObject [("success", VBoolean false); ("error", VString msg);
           ("timestamp", VString ts)]%string.

Definition success_envelope (output : value) (ts : jsstring) : value :=
  VObject [("success", VBoolean true); ("output", output);
           ("timestamp", VString ts)]%string.

(** A conversion that refuses every value: the least helpful [ToString]. *)
Definition conversion_throws : value -> completion jsstring :=
  fun _ => Throw TypeError.

Definition request_for (target : string) : request :=
  mkRequest (VObject [("target", VString (lit target))]%string).

(** What Node's [exec] reports when it has killed, at the deadline, a
    child that had written nothing to stderr: [killed] is set, the signal is
    SIGTERM, and the message is the generic
    ["Command failed: " + cmd + "\n" + stderr], with an empty [stderr]. *)
Definition deadline_error (cmd : jsstring) : ExecException :=
  mkExecException (lit "Command failed: " ++ cmd ++ [10%N]) None true
                  (Some (lit "SIGTERM")).

Definition deadline_environment (platform : string) : environment :=
  mkEnvironment (lit platform)
                (fun cmd _ => mkExecResult (Some (deadline_error cmd)) [] [])
                (lit "2024-05-01T12:00:30.000Z").

(** A child that exits with status 0 and prints nothing to stdout. *)
Definition quiet_environment (platform : string) : environment :=
  mkEnvironment (lit platform)
                (fun _ _ => mkExecResult None [] (lit "warning"))
                (lit "2024-05-01T12:00:00.000Z").

(** The boolean answer of [/p/.test(s)] alone. *)
Definition test_result (other : value -> completion jsstring) (p : regex)
    (s : jsstring) : completion bool :=
  (r <- RegExp_test other (RegExpLiteral p) (VString s) ;; Normal (fst r))%completion.

(* ================================================================== *)
(** ** validateTarget with the heap of RegExp objects made explicit

    The only mutable objects [validateTarget] touches are the two RegExp
    objects its literals create: [test] reads an object's [lastIndex] and
    flags and may write [lastIndex] back.  Here that state is threaded
    through the call, so that a dependence on what earlier code left behind
    can be expressed, and ruled out. *)

(** The RegExp objects alive; an address is an index. *)
Definition heap := list RegExp.

Fixpoint heap_update (h : heap) (r : nat) (R : RegExp) : heap :=
  match h, r with
  | [], _ => []
  | _ :: rest, O => R :: rest
  | x :: rest, S r' => x :: heap_update rest r' R
  end.

(** 13.2.7.3: every evaluation of a regular-expression literal creates a
    new object (RegExpCreate), with [lastIndex] 0. *)
Definition RegExpCreate (pattern : regex) (g y : bool) (h : heap) : nat * heap :=
  (List.length h, h ++ [mkRegExp pattern g y 0]).

(** [r.test(arg)] on the object at address [r]: the object is read, and
    what RegExpBuiltinExec leaves of it is written back. *)
Definition test_at (other : value -> completion jsstring) (r : nat) (arg : value)
    (h : heap) : completion bool * heap :=
  match nth_error h r with
  | None => (Throw TypeError, h)
  | Some R =>
      match RegExp_test other R arg with
      | Normal (b, R') => (Normal b, heap_update h r R')
      | Throw e => (Throw e, h)
      end
  end.

(** [validateTarget] (server.js, lines 24-32) as a transformer of the heap. *)
Definition validateTarget_heap (other : value -> completion jsstring)
    (target : value) (h : heap) : completion bool * heap :=
  (* if (!target || typeof target !== 'string') return false; *)
  if negb (ToBoolean target) || negb (typeof target =? "string")%string
  then (Normal false, h)
  else
    (* const domainRegex = /.../; const ipRegex = /.../; *)
    let '(domainRegex, h1) := RegExpCreate domainRegex_pattern false false h in
    let '(ipRegex, h2) := RegExpCreate ipRegex_pattern false false h1 in
    (* return domainRegex.test(target) || ipRegex.test(target); *)
    match test_at other domainRegex target h2 with
    | (Normal true, h3) => (Normal true, h3)
    | (Normal false, h3) => test_at other ipRegex target h3
    | (Throw e, h3) => (Throw e, h3)
    end.

(** A series of calls, one after the other, each on the heap the previous
    one left. *)
Fixpoint session (other : value -> completion jsstring) (inputs : list value)
    (h : heap) : list (completion bool) * heap :=
  match inputs with
  | [] => ([], h)
  | v :: rest =>
      let '(r, h1) := validateTarget_heap other v h in
      let '(rs, h2) := session other rest h1 in
      (r :: rs, h2)
  end.

(* ================================================================== *)
(** ** The health endpoint (server.js, lines 57-63) and further notions *)

(** An environment variable as [process.env] gives it: a string, or
    [undefined] when the variable is not set. *)
Definition env_var (v : option jsstring) : value :=
  match v with
  | Some s => VString s
  | None => VUndefined
  end.

(** [app.get('/health', (req, res) => res.json({status: 'ok', timestamp:
    new Date().toISOString(), location: process.env.SERVER_LOCATION ||
    'unknown'}))]; [SERVER_LOCATION] is the variable as the process sees it. *)
Definition health_handler (SERVER_LOCATION : option jsstring) : prog unit :=
  DateNowISO (fun ts =>
    Respond 200
      (VObject [("status", VString (lit "ok"));
                ("timestamp", VString ts);
                ("location", js_or (env_var SERVER_LOCATION)
                                   (VString (lit "unknown")))]%string)
      (Ret tt)).

(** The responses an execution sent, in order. *)
Fixpoint responses (tr : list action) : list (Z * value) :=
  match tr with
  | [] => []
  | Spawn _ _ :: rest => responses rest
  | Send status b :: rest => (status, b) :: responses rest
  end.

(** The [success] field of a response body. *)
Definition success_field (b : value) : value :=
  match b with
  | VObject props => get_property "success" props
  | _ => VUndefined
  end.

(** A label made of digits only. *)
Definition numeric_label (l : jsstring) : bool :=
  (1 <=? List.length l) && (List.length l <=? 63)
  && forallb Grammar.is_digit l.

(* ================================================================== *)
(** ** Tactics *)

Import Grammar.

Ltac code_units :=
  change (cu "a") with 97%N in *; change (cu "z") with 122%N in *;
  change (cu "A") with 65%N in *; change (cu "Z") with 90%N in *;
  change (cu "0") with 48%N in *; change (cu "9") with 57%N in *;
  change (cu "1") with 49%N in *; change (cu "2") with 50%N in *;
  change (cu "4") with 52%N in *; change (cu "5") with 53%N in *;
  change (cu "-") with 45%N in *; change (cu ".") with 46%N in *.

Ltac bool_arith :=
  unfold is_alnum, is_digit, is_hyphen, is_dot, in_range in *;
  code_units;
  repeat match goal with
  | H : _ && _ = true |- _ => apply andb_prop in H; destruct H
  | H : _ || _ = true |- _ => apply orb_prop in H; destruct H
  | H : _ || _ = false |- _ => apply orb_false_elim in H; destruct H
  | H : negb _ = true |- _ => apply negb_true_iff in H
  | H : negb _ = false |- _ => apply negb_false_iff in H
  | H : (_ <=? _)%N = true |- _ => apply N.leb_le in H
  | H : (_ <=? _)%N = false |- _ => apply N.leb_gt in H
  | H : (_ =? _)%N = true |- _ => apply N.eqb_eq in H
  | H : (_ =? _)%N = false |- _ => apply N.eqb_neq in H
  | H : (_ <=? _) = true |- _ => apply Nat.leb_le in H
  | H : (_ <=? _) = false |- _ => apply Nat.leb_gt in H
  | H : (_ =? _) = true |- _ => apply Nat.eqb_eq in H
  | H : (_ =? _) = false |- _ => apply Nat.eqb_neq in H
  end.


Ltac digit_goal :=
  unfold is_digit, in_range; code_units;
  repeat (apply andb_true_intro; split);
  try reflexivity;
  try (apply N.leb_le); try (apply N.eqb_eq); try lia.

(* ================================================================== *)
(** ** The matcher agrees with the declarative semantics *)

Lemma state_eta (x : MatchState) : mkState (endIndex x) (remaining x) = x.
Proof. destruct x; reflexivity. Qed.

Lemma Iter_ext (L : nat -> jsstring -> jsstring -> Prop) n :
  forall i j w rest, i = j -> Iter L n i w rest -> Iter L n j w rest.
Proof. intros; subst; assumption. Qed.

Section Repeat.
Variable m : Matcher.
Variable L : nat -> jsstring -> jsstring -> Prop.
Hypothesis Hm : matcher_sound_complete m L.

Lemma RepeatMatcher_sound fuel :
  forall min x c, min <= fuel ->
    RepeatMatcher m fuel min x c <> None ->
    exists n w rest, remaining x = w ++ rest /\ min <= n /\ n <= fuel
                     /\ Iter L n (endIndex x) w rest
                     /\ c (mkState (endIndex x + List.length w) rest) <> None.
Proof.
  induction fuel as [|fuel IH]; intros min x c Hle H; simpl in H.
  - exists 0, [], (remaining x). simpl.
    rewrite Nat.add_0_r, state_eta. repeat split; auto; lia.
  - assert (Hstep :
      m x (fun y => if (min =? 0) && (endIndex y =? endIndex x) then None
                    else RepeatMatcher m fuel (pred min) y c) <> None ->
      exists n w rest, remaining x = w ++ rest /\ min <= n /\ n <= S fuel
                     /\ Iter L n (endIndex x) w rest
                     /\ c (mkState (endIndex x + List.length w) rest) <> None).
    { intro Hd. apply Hm in Hd. destruct Hd as (w1 & rest1 & Hx & HL & Hd).
      simpl in Hd.
      destruct ((min =? 0) && (endIndex x + List.length w1 =? endIndex x)) eqn:E;
        [congruence|].
      apply IH in Hd; [|lia].
      destruct Hd as (n & w2 & rest & Hr & Hmin & Hmax & Hit & Hc).
      simpl in Hr, Hit, Hc.
      exists (S n), (w1 ++ w2), rest. subst rest1.
      rewrite Hx, <- app_assoc, length_app, Nat.add_assoc.
      repeat split; auto; try lia.
      simpl. exists w1, w2. auto. }
    destruct (min =? 0) eqn:Emin; simpl in H.
    + destruct (m x _) eqn:Em in H.
      * apply Hstep. simpl. rewrite Em. discriminate.
      * exists 0, [], (remaining x). simpl.
        apply Nat.eqb_eq in Emin.
        rewrite Nat.add_0_r, state_eta. repeat split; auto; lia.
    + apply Hstep. exact H.
Qed.

Lemma RepeatMatcher_complete fuel :
  forall n min x c w rest,
    remaining x = w ++ rest -> min <= n -> n <= fuel ->
    Iter L n (endIndex x) w rest ->
    c (mkState (endIndex x + List.length w) rest) <> None ->
    RepeatMatcher m fuel min x c <> None.
Proof.
  induction fuel as [|fuel IH].
  - intros n min x c w rest Hx Hmin Hmax Hit Hc.
    assert (n = 0) by lia. subst n. simpl in Hit. subst w. simpl in *.
    rewrite Nat.add_0_r, <- Hx, state_eta in Hc. exact Hc.
  - induction n as [|n IHn]; intros min x c w rest Hx Hmin Hmax Hit Hc.
    + simpl in Hit. subst w. simpl in Hx.
      rewrite Nat.add_0_r, <- Hx, state_eta in Hc.
      assert (min = 0) by lia. subst min. simpl.
      destruct (m x _); [discriminate | exact Hc].
    + simpl in Hit. destruct Hit as (w1 & w2 & Hw & HL & Hit).
      destruct (Nat.eq_dec min 0) as [Hz | Hnz];
        [destruct w1 as [|a w1] |].
      * (* an empty optional iteration is dropped *)
        simpl in Hw. subst w2.
        apply (IHn min x c w rest); auto; try lia.
        eapply Iter_ext; [|exact Hit]. simpl. lia.
      * subst min. simpl.
        match goal with |- match ?t with _ => _ end <> None =>
          assert (Hd : t <> None); [|destruct t; [discriminate | congruence]]
        end.
        apply Hm. exists (a :: w1), (w2 ++ rest).
        subst w. rewrite Hx, <- app_assoc. repeat split; auto.
        simpl. replace (endIndex x + S (List.length w1) =? endIndex x) with false
          by (symmetry; apply Nat.eqb_neq; lia).
        apply (IH n 0 _ c w2 rest); simpl; auto; try lia.
        rewrite length_app, Nat.add_assoc in Hc. exact Hc.
      * simpl. replace (min =? 0) with false
          by (symmetry; apply Nat.eqb_neq; lia).
        simpl. apply Hm. exists w1, (w2 ++ rest).
        subst w. rewrite Hx, <- app_assoc. repeat split; auto.
        simpl. apply (IH n (pred min) _ c w2 rest); simpl; auto; try lia.
        rewrite length_app, Nat.add_assoc in Hc. exact Hc.
Qed.

(** Iterations beyond [min] that consume nothing can be dropped. *)
Lemma Iter_compress n :
  forall min i w rest, min <= n -> Iter L n i w rest ->
    exists n', min <= n' /\ n' <= min + List.length w /\ n' <= n
               /\ Iter L n' i w rest.
Proof.
  induction n as [|n IH]; intros min i w rest Hmin Hit.
  - exists 0. repeat split; auto; lia.
  - simpl in Hit. destruct Hit as (w1 & w2 & Hw & HL & Hit).
    destruct min as [|min].
    + destruct w1 as [|a w1].
      * simpl in Hw. subst w2.
        destruct (IH 0 i w rest) as (n' & ? & ? & ? & ?); [lia| |].
        { eapply Iter_ext; [|exact Hit]. simpl; lia. }
        exists n'. repeat split; auto; lia.
      * destruct (IH 0 _ w2 rest ltac:(lia) Hit) as (n' & ? & ? & ? & ?).
        exists (S n'). subst w. rewrite length_app. simpl.
        repeat split; try lia. exists (a :: w1), w2. auto.
    + destruct (IH min _ w2 rest ltac:(lia) Hit) as (n' & ? & ? & ? & ?).
      exists (S n'). subst w. rewrite length_app.
      repeat split; try lia. exists w1, w2. auto.
Qed.
End Repeat.

Lemma matcher_spec (r : regex) :
  well_formed r = true -> matcher_sound_complete (matcher r) (Matches r).
Proof.
  induction r as [ | | | ch | atoms | r1 IH1 r2 IH2 | r1 IH1 r2 IH2 | r1 IH1
                 | r1 IH1 min max]; intros Hwf x c; simpl in Hwf |- *.
  - split.
    + intro H. exists [], (remaining x). simpl.
      rewrite Nat.add_0_r, state_eta. auto.
    + intros (w & rest & Hx & -> & Hc). simpl in *.
      rewrite Nat.add_0_r, <- Hx, state_eta in Hc. exact Hc.
  - split.
    + destruct (endIndex x =? 0) eqn:E; [|congruence]. intro H.
      apply Nat.eqb_eq in E.
      exists [], (remaining x). simpl. rewrite Nat.add_0_r, state_eta. auto.
    + intros (w & rest & Hx & (-> & Hi) & Hc). simpl in *.
      rewrite Hi. simpl. rewrite Hi in Hc. simpl in Hc.
      rewrite <- Hx in Hc. rewrite <- Hi in Hc at 1. rewrite state_eta in Hc.
      exact Hc.
  - split.
    + destruct (remaining x) eqn:E; [|congruence]. intro H.
      exists [], []. simpl. rewrite Nat.add_0_r, <- E, state_eta. auto.
    + intros (w & rest & Hx & (-> & ->) & Hc). simpl in *.
      rewrite Hx. rewrite Nat.add_0_r, <- Hx, state_eta in Hc. exact Hc.
  - split.
    + destruct (remaining x) as [|a tl] eqn:E; [congruence|].
      destruct (a =? ch)%N eqn:Ea; [|congruence]. intro H.
      apply N.eqb_eq in Ea. subst a.
      exists [ch], tl. simpl. rewrite Nat.add_1_r. auto.
    + intros (w & rest & Hx & -> & Hc). simpl in *.
      rewrite Hx, N.eqb_refl, <- (Nat.add_1_r (endIndex x)). exact Hc.
  - split.
    + destruct (remaining x) as [|a tl] eqn:E; [congruence|].
      destruct (class_mem atoms a) eqn:Ea; [|congruence]. intro H.
      exists [a], tl. simpl. rewrite Nat.add_1_r. eauto.
    + intros (w & rest & Hx & (a & -> & Ha) & Hc). simpl in *.
      rewrite Hx, Ha, <- (Nat.add_1_r (endIndex x)). exact Hc.
  - apply andb_prop in Hwf. destruct Hwf as [Hwf1 Hwf2].
    specialize (IH1 Hwf1). specialize (IH2 Hwf2). split.
    + intro H. apply IH1 in H. destruct H as (w1 & rest1 & Hx & H1 & H).
      apply IH2 in H. destruct H as (w2 & rest & Hr & H2 & Hc). simpl in *.
      subst rest1. exists (w1 ++ w2), rest.
      rewrite Hx, <- app_assoc, length_app, Nat.add_assoc.
      repeat split; auto. exists w1, w2. auto.
    + intros (w & rest & Hx & (w1 & w2 & -> & H1 & H2) & Hc).
      apply IH1. exists w1, (w2 ++ rest). rewrite Hx, <- app_assoc.
      repeat split; auto. apply IH2. exists w2, rest. simpl.
      rewrite length_app, Nat.add_assoc in Hc. auto.
  - apply andb_prop in Hwf. destruct Hwf as [Hwf1 Hwf2].
    specialize (IH1 Hwf1). specialize (IH2 Hwf2). split.
    + destruct (matcher r1 x c) eqn:E1.
      * intros _. assert (H : matcher r1 x c <> None) by congruence.
        apply IH1 in H. destruct H as (w & rest & ? & ? & ?).
        exists w, rest. auto.
      * intro H. apply IH2 in H. destruct H as (w & rest & ? & ? & ?).
        exists w, rest. auto.
    + intros (w & rest & Hx & [H1 | H2] & Hc).
      * assert (H : matcher r1 x c <> None) by (apply IH1; eauto).
        destruct (matcher r1 x c); [discriminate | congruence].
      * destruct (matcher r1 x c); [discriminate|]. apply IH2; eauto.
  - apply IH1; exact Hwf.
  - apply andb_prop in Hwf. destruct Hwf as [Hwf1 Hwf2].
    specialize (IH1 Hwf1). destruct max as [mx|].
    + apply Nat.leb_le in Hwf2. split.
      * intro H. apply (RepeatMatcher_sound IH1) in H; [|exact Hwf2].
        destruct H as (n & w & rest & ? & ? & ? & ? & ?).
        exists w, rest. repeat split; auto. exists n. auto.
      * intros (w & rest & Hx & (n & ? & ? & ?) & Hc).
        eapply (RepeatMatcher_complete IH1); eauto.
    + split.
      * intro H. apply (RepeatMatcher_sound IH1) in H; [|lia].
        destruct H as (n & w & rest & ? & ? & ? & ? & ?).
        exists w, rest. repeat split; auto. exists n. auto.
      * intros (w & rest & Hx & (n & Hn & _ & Hit) & Hc).
        destruct (@Iter_compress (Matches r1) n min _ _ _ Hn Hit)
          as (n' & ? & ? & ? & ?).
        eapply (RepeatMatcher_complete IH1 (n:=n')); eauto.
        rewrite Hx, length_app. lia.
Qed.

Lemma matcher_at (r : regex) :
  well_formed r = true ->
  forall i s,
    matcher r (mkState i s) (fun y => Some y) <> None <->
    exists w rest, s = w ++ rest /\ Matches r i w rest.
Proof.
  intros Hwf i s. split.
  - intro H. apply (matcher_spec r Hwf) in H.
    destruct H as (w & rest & ? & ? & _). eauto.
  - intros (w & rest & ? & ?). apply (matcher_spec r Hwf). exists w, rest.
    split; [auto|]. split; [auto | discriminate].
Qed.

Lemma exec_loop_spec (r : regex) :
  well_formed r = true ->
  forall suffix i,
    exec_loop r false i suffix <> None <->
    exists pre w rest, suffix = pre ++ w ++ rest
                       /\ Matches r (i + List.length pre) w rest.
Proof.
  intros Hwf. pose proof (matcher_at r Hwf) as Hm.
  induction suffix as [|a tl IH]; intros i; simpl;
    specialize (Hm i); 
    match goal with |- context [matcher r ?x ?c] =>
      destruct (matcher r x c) eqn:E end.
  - split; [intros _ | discriminate].
    destruct (proj1 (Hm []) ltac:(congruence)) as (w & rest & Hs & HM).
    exists [], w, rest. simpl. rewrite Nat.add_0_r. auto.
  - split; [congruence|]. intros (pre & w & rest & Hs & HM). exfalso.
    symmetry in Hs. apply app_eq_nil in Hs. destruct Hs as [-> Hs].
    simpl in HM. rewrite Nat.add_0_r in HM.
    apply (proj2 (Hm [])); [eauto | exact E].
  - split; [intros _ | discriminate].
    destruct (proj1 (Hm (a :: tl)) ltac:(congruence)) as (w & rest & Hs & HM).
    exists [], w, rest. simpl. rewrite Nat.add_0_r. auto.
  - rewrite IH. split.
    + intros (pre & w & rest & Hs & HM). exists (a :: pre), w, rest.
      simpl. rewrite Hs, Nat.add_succ_r. auto.
    + intros (pre & w & rest & Hs & HM). destruct pre as [|b pre].
      * exfalso. simpl in *. rewrite Nat.add_0_r in HM.
        apply (proj2 (Hm (a :: tl))); [eauto | exact E].
      * simpl in Hs. injection Hs as -> ->. exists pre, w, rest.
        simpl in HM. rewrite Nat.add_succ_r in HM. auto.
Qed.

(** A flagless RegExp object is left as it was, and [test] answers
    whether some substring matches. *)
Lemma RegExpBuiltinExec_literal (p : regex) (s : jsstring) :
  snd (RegExpBuiltinExec (RegExpLiteral p) s) = RegExpLiteral p.
Proof.
  unfold RegExpBuiltinExec. simpl.
  destruct (exec_loop p false 0 s); reflexivity.
Qed.

Lemma RegExpBuiltinExec_literal_spec (p : regex) (s : jsstring) :
  well_formed p = true ->
  (fst (RegExpBuiltinExec (RegExpLiteral p) s) <> None <->
   exists pre w rest, s = pre ++ w ++ rest /\ Matches p (List.length pre) w rest).
Proof.
  intro Hwf. unfold RegExpBuiltinExec. simpl.
  rewrite <- (@exec_loop_spec p Hwf s 0).
  destruct (exec_loop p false 0 s); simpl; split; congruence.
Qed.

(* ================================================================== *)
(** ** The hostname pattern and the hostname grammar *)

Lemma alnum_class_mem c : class_mem alnum_class c = is_alnum c.
Proof.
  unfold class_mem, alnum_class, is_alnum, is_digit, in_range.
  cbn [existsb atom_mem]. rewrite orb_false_r, orb_assoc. reflexivity.
Qed.

Lemma alnum_hyphen_class_mem c :
  class_mem alnum_hyphen_class c = is_alnum c || is_hyphen c.
Proof.
  unfold class_mem, alnum_hyphen_class, is_alnum, is_digit, is_hyphen, in_range.
  cbn [existsb atom_mem]. rewrite orb_false_r, !orb_assoc. reflexivity.
Qed.

Lemma digit_range_mem lo hi c :
  class_mem [ClassRange (cu lo) (cu hi)] c = in_range lo hi c.
Proof. unfold class_mem, in_range. cbn [existsb atom_mem]. apply orb_false_r. Qed.

Lemma label_char_not_dot c : is_alnum c || is_hyphen c = true -> is_dot c = false.
Proof.
  intro H. destruct (is_dot c) eqn:E; [exfalso | reflexivity].
  bool_arith; lia.
Qed.

Lemma label_char_safe c : is_alnum c || is_hyphen c = true -> safe_char c = true.
Proof.
  unfold safe_char. intro H. apply orb_prop in H. destruct H as [-> | ->];
    [reflexivity | apply orb_true_r].
Qed.

Lemma Iter_class atoms n :
  forall i w rest,
    Iter (Matches (CharClass atoms)) n i w rest <->
    List.length w = n /\ forallb (class_mem atoms) w = true.
Proof.
  induction n as [|n IH]; intros i w rest; simpl.
  - split; [intros ->; auto | intros [H _]; destruct w; [auto | discriminate]].
  - split.
    + intros (w1 & w2 & -> & (a & -> & Ha) & Hit). apply IH in Hit.
      destruct Hit as [Hl Hall]. simpl. rewrite Ha, Hl, Hall. auto.
    + intros [Hl Hall]. destruct w as [|a w]; [discriminate|].
      simpl in Hl, Hall. apply andb_prop in Hall. destruct Hall as [Ha Hall].
      exists [a], w. repeat split; eauto. apply IH. split; [lia | auto].
Qed.

(** Position-independent pieces: an iteration is a concatenation. *)
Lemma Iter_concat (L : nat -> jsstring -> jsstring -> Prop) (P : jsstring -> bool) :
  (forall i w rest, L i w rest <-> P w = true) ->
  forall n i w rest,
    Iter L n i w rest <->
    exists ws, List.length ws = n /\ w = List.concat ws /\ forallb P ws = true.
Proof.
  intros HL. induction n as [|n IH]; intros i w rest; simpl.
  - split.
    + intros ->. exists []. auto.
    + intros (ws & Hl & -> & _). destruct ws; [auto | discriminate].
  - split.
    + intros (w1 & w2 & -> & H1 & Hit). apply IH in Hit.
      destruct Hit as (ws & Hl & -> & Hall). apply HL in H1.
      exists (w1 :: ws). simpl. rewrite H1, Hl, Hall. auto.
    + intros (ws & Hl & -> & Hall). destruct ws as [|w1 ws]; [discriminate|].
      simpl in *. apply andb_prop in Hall. destruct Hall as [H1 Hall].
      exists w1, (List.concat ws). repeat split; auto.
      * apply HL. exact H1.
      * apply IH. exists ws. repeat split; auto; lia.
Qed.

Lemma forallb_ext_eq {A} (f g : A -> bool) l :
  (forall a, f a = g a) -> forallb f l = forallb g l.
Proof. intro H. induction l; simpl; [auto | rewrite H, IHl; auto]. Qed.

Lemma label_tail_matches i w rest :
  Matches label_tail i w rest <-> tail_ok w.
Proof.
  unfold label_tail, tail_ok. cbn [Matches terms fold_right]. split.
  - intros (n & _ & Hn & Hit). destruct n as [|[|n]]; [| |lia]; cbn [Iter] in Hit.
    + auto.
    + destruct Hit as (w1 & w2 & -> & Hg & ->).
      cbn [Matches terms fold_right] in Hg.
      destruct Hg as (u & v & -> & (k & _ & Hk & Hit) & (x & y & -> & (d & -> & Hd) & ->)).
      apply Iter_class in Hit. destruct Hit as [Hl Hall].
      right. exists u, d. rewrite !app_nil_r.
      rewrite alnum_class_mem in Hd.
      rewrite (forallb_ext_eq _ _ _ alnum_hyphen_class_mem) in Hall.
      repeat split; auto. lia.
  - intros [-> | (m & d & -> & Hl & Hall & Hd)].
    + exists 0. cbn [Iter]. repeat split; auto.
    + exists 1. repeat split; auto. cbn [Iter Matches terms fold_right].
      exists (m ++ [d]), []. rewrite !app_nil_r. repeat split; auto.
      exists m, [d]. repeat split; auto.
      * exists (List.length m). repeat split; auto; try lia.
        apply Iter_class. split; auto.
        rewrite (forallb_ext_eq _ _ _ alnum_hyphen_class_mem). exact Hall.
      * exists [d], []. repeat split; auto. exists d.
        rewrite alnum_class_mem. auto.
Qed.

Lemma alnum_not_hyphen c : is_alnum c = true -> is_hyphen c = false.
Proof.
  intro H. destruct (is_hyphen c) eqn:E; [exfalso | reflexivity].
  bool_arith; lia.
Qed.

Lemma label_shape (l : jsstring) :
  label l = true <->
  exists a t, l = a :: t /\ is_alnum a = true /\ tail_ok t.
Proof.
  unfold label, tail_ok. split.
  - intro H. destruct l as [|a t]; [discriminate|].
    repeat (apply andb_prop in H; let H' := fresh in destruct H as [H H']).
    exists a, t. split; [reflexivity|].
    simpl in H1, H2. apply andb_prop in H2. destruct H2 as [Ha Ht].
    apply negb_true_iff in H1.
    assert (Haa : is_alnum a = true).
    { rewrite H1, orb_false_r in Ha. exact Ha. }
    split; [exact Haa|].
    destruct (exists_last (l:=a :: t) ltac:(discriminate)) as (m' & d & E).
    destruct m' as [|a' m].
    + left. simpl in E. injection E as _ ->. reflexivity.
    + right. simpl in E. injection E as <- ->. exists m, d.
      rewrite forallb_app in Ht. apply andb_prop in Ht. destruct Ht as [Hm Hd].
      simpl in Hd. rewrite andb_true_r in Hd.
      change (a :: m ++ [d]) with ((a :: m) ++ [d]) in H0.
      rewrite last_last in H0. apply negb_true_iff in H0.
      rewrite H0, orb_false_r in Hd.
      apply Nat.leb_le in H3. simpl in H3. rewrite length_app in H3. simpl in H3.
      repeat split; auto. lia.
  - intros (a & t & -> & Ha & Ht).
    assert (Hh := alnum_not_hyphen _ Ha).
    destruct Ht as [-> | (m & d & -> & Hl & Hall & Hd)].
    + simpl. rewrite Ha, Hh. reflexivity.
    + change (a :: m ++ [d]) with ((a :: m) ++ [d]).
      rewrite last_last, (alnum_not_hyphen _ Hd).
      simpl hd. rewrite Hh. rewrite forallb_app. simpl.
      rewrite Ha, Hall, Hd. simpl.
      rewrite length_app. simpl.
      replace (List.length m + 1 <=? 62) with true
        by (symmetry; apply Nat.leb_le; lia).
      reflexivity.
Qed.

Lemma is_dot_dot : is_dot (cu ".") = true.
Proof. reflexivity. Qed.

Lemma split_dots_app l :
  forall s, no_dot l = true ->
    split_dots (l ++ cu "." :: s) = l :: split_dots s.
Proof.
  induction l as [|c l IH]; intros s H.
  - reflexivity.
  - simpl in H. apply andb_prop in H. destruct H as [Hc Hl].
    apply negb_true_iff in Hc. simpl. rewrite Hc, (IH s Hl). reflexivity.
Qed.

Lemma split_dots_no_dot l : no_dot l = true -> split_dots l = [l].
Proof.
  induction l as [|c l IH]; intro H.
  - reflexivity.
  - simpl in H. apply andb_prop in H. destruct H as [Hc Hl].
    apply negb_true_iff in Hc. simpl. rewrite Hc, (IH Hl). reflexivity.
Qed.

Lemma split_dots_join ls :
  forall l0, no_dot l0 = true -> forallb no_dot ls = true ->
    split_dots (join_dots l0 ls) = l0 :: ls.
Proof.
  unfold join_dots. induction ls as [|l ls IH]; intros l0 H0 Hls; simpl.
  - rewrite app_nil_r. apply split_dots_no_dot. exact H0.
  - simpl in Hls. apply andb_prop in Hls. destruct Hls as [Hl Hls].
    rewrite (split_dots_app _ _ H0), (IH l Hl Hls). reflexivity.
Qed.

Lemma split_dots_inv s :
  exists l0 ls, split_dots s = l0 :: ls /\ s = join_dots l0 ls.
Proof.
  unfold join_dots. induction s as [|c s (l0 & ls & Hs & E)]; simpl.
  - exists [], []. auto.
  - destruct (is_dot c) eqn:Hc.
    + apply N.eqb_eq in Hc. subst c. exists [], (l0 :: ls).
      rewrite Hs. simpl. rewrite <- E. auto.
    + rewrite Hs. exists (c :: l0), ls. simpl. rewrite <- E. auto.
Qed.

Lemma label_no_dot l : label l = true -> no_dot l = true.
Proof.
  unfold label, no_dot. intro H.
  repeat (apply andb_prop in H; let H' := fresh in destruct H as [H H']).
  clear - H2. induction l as [|c l IH]; simpl in *; [reflexivity|].
  apply andb_prop in H2. destruct H2 as [Hc Hl].
  rewrite (label_char_not_dot _ Hc), (IH Hl). reflexivity.
Qed.

Lemma labels_no_dot ls : forallb label ls = true -> forallb no_dot ls = true.
Proof.
  induction ls as [|l ls IH]; simpl; [auto|]. intro H.
  apply andb_prop in H. destruct H as [Hl Hls].
  rewrite (label_no_dot _ Hl), (IH Hls). reflexivity.
Qed.

Lemma hostname_shape s :
  hostname s = true <->
  exists l0 ls, s = join_dots l0 ls /\ label l0 = true /\ forallb label ls = true.
Proof.
  unfold hostname. split.
  - intro H. destruct (split_dots_inv s) as (l0 & ls & Hs & E).
    rewrite Hs in H. simpl in H. apply andb_prop in H. destruct H.
    exists l0, ls. auto.
  - intros (l0 & ls & -> & H0 & Hls).
    rewrite split_dots_join by auto using label_no_dot, labels_no_dot.
    simpl. rewrite H0, Hls. reflexivity.
Qed.

Lemma dot_label_matches i w rest :
  Matches dot_label i w rest <-> dot_then_label w = true.
Proof.
  unfold dot_label, dot_then_label. cbn [Matches terms fold_right]. split.
  - intros (w1 & w2 & -> & -> & (w3 & w4 & -> & (a & -> & Ha)
            & (t & e & -> & Ht & ->))).
    apply label_tail_matches in Ht. rewrite alnum_class_mem in Ha.
    rewrite app_nil_r. cbn [app]. rewrite is_dot_dot. cbn [andb].
    apply label_shape. eauto.
  - destruct w as [|c l]; [discriminate|]. intro H.
    apply andb_prop in H. destruct H as [Hc Hl]. apply N.eqb_eq in Hc. subst c.
    apply label_shape in Hl. destruct Hl as (a & t & -> & Ha & Ht).
    exists [cu "."], (a :: t). repeat split; auto.
    exists [a], t. repeat split; auto.
    + exists a. rewrite alnum_class_mem. auto.
    + exists t, []. rewrite app_nil_r. repeat split; auto.
      apply label_tail_matches. exact Ht.
Qed.

Lemma dot_then_label_all ws :
  forallb dot_then_label ws = true <->
  exists ls, ws = map (cons (cu ".")) ls /\ forallb label ls = true.
Proof.
  induction ws as [|w ws IH]; simpl.
  - split; [exists []; auto | auto].
  - split.
    + intro H. apply andb_prop in H. destruct H as [Hw Hws].
      apply IH in Hws. destruct Hws as (ls & -> & Hls).
      destruct w as [|c l]; [discriminate|]. simpl in Hw.
      apply andb_prop in Hw. destruct Hw as [Hc Hl].
      apply N.eqb_eq in Hc. subst c.
      exists (l :: ls). simpl. rewrite Hl, Hls. auto.
    + intros (ls & E & Hls). destruct ls as [|l ls]; [discriminate|].
      simpl in E. injection E as -> ->. simpl in Hls.
      apply andb_prop in Hls. destruct Hls as [Hl Hls].
      cbn [dot_then_label]. rewrite is_dot_dot, Hl. cbn [andb].
      apply IH. eauto.
Qed.

Lemma domainRegex_matches i w rest :
  Matches domainRegex_pattern i w rest <->
  i = 0 /\ rest = [] /\ hostname w = true.
Proof.
  rewrite hostname_shape.
  unfold domainRegex_pattern. cbn [Matches terms fold_right]. split.
  - intros (w1 & w2 & -> & (-> & ->) & (w3 & w4 & -> & (a & -> & Ha)
            & (t & w5 & -> & Ht & (q & w6 & -> & (n & _ & _ & Hit)
            & (w7 & w8 & -> & (-> & Hend) & ->))))).
    cbn [app] in Hend. subst rest.
    apply label_tail_matches in Ht. rewrite alnum_class_mem in Ha.
    apply (Iter_concat _ _ dot_label_matches) in Hit.
    destruct Hit as (ws & _ & -> & Hws).
    apply dot_then_label_all in Hws. destruct Hws as (ls & -> & Hls).
    repeat split; auto.
    exists (a :: t), ls. unfold join_dots. simpl. rewrite !app_nil_r.
    repeat split; auto. apply label_shape. eauto.
  - intros (-> & -> & (l0 & ls & -> & H0 & Hls)).
    apply label_shape in H0. destruct H0 as (a & t & -> & Ha & Ht).
    exists [], (join_dots (a :: t) ls). repeat split; auto.
    exists [a], (t ++ List.concat (map (cons (cu ".")) ls)). repeat split; auto.
    + exists a. rewrite alnum_class_mem. auto.
    + exists t, (List.concat (map (cons (cu ".")) ls)). repeat split; auto.
      * apply label_tail_matches. exact Ht.
      * exists (List.concat (map (cons (cu ".")) ls)), [].
        rewrite app_nil_r. repeat split; auto.
        -- exists (List.length ls). repeat split; auto; try lia.
           apply (Iter_concat _ _ dot_label_matches).
           exists (map (cons (cu ".")) ls). rewrite length_map.
           repeat split; auto. apply dot_then_label_all. eauto.
        -- exists [], []. auto.
Qed.

Lemma domainRegex_well_formed : well_formed domainRegex_pattern = true.
Proof. reflexivity. Qed.

Lemma anchored_substring (pre w rest : jsstring) :
  List.length pre = 0 -> rest = [] -> pre ++ w ++ rest = w.
Proof.
  intros Hp ->. destruct pre; [|discriminate]. simpl. apply app_nil_r.
Qed.

Lemma domainRegex_exec s :
  fst (RegExpBuiltinExec (RegExpLiteral domainRegex_pattern) s) <> None <->
  hostname s = true.
Proof.
  rewrite (@RegExpBuiltinExec_literal_spec _ s domainRegex_well_formed). split.
  - intros (pre & w & rest & -> & H). apply domainRegex_matches in H.
    destruct H as (Hp & Hr & H). rewrite (@anchored_substring pre w rest Hp Hr). exact H.
  - intro H. exists [], s, []. rewrite app_nil_r. split; [reflexivity|].
    apply domainRegex_matches. auto.
Qed.

(* ================================================================== *)
(** ** The IPv4 pattern and the IPv4 grammar *)

Lemma optional_class_matches atoms i w rest :
  Matches (Quant (CharClass atoms) 0 (Some 1)) i w rest <->
  w = [] \/ exists c, w = [c] /\ class_mem atoms c = true.
Proof.
  cbn [Matches]. split.
  - intros (n & _ & Hn & Hit). apply Iter_class in Hit. destruct Hit as [Hl Hall].
    destruct w as [|c [|d w]]; simpl in Hl; [auto | | lia].
    right. exists c. simpl in Hall. rewrite andb_true_r in Hall. auto.
  - intros [-> | (c & -> & Hc)].
    + exists 0. repeat split; auto.
    + exists 1. split; [lia|]. split; [lia|].
      apply Iter_class. simpl. rewrite Hc. auto.
Qed.

Lemma decimal_value_1 a : decimal_value [a] = (a - 48)%N.
Proof. unfold decimal_value. cbn [fold_left]. code_units. lia. Qed.

Lemma decimal_value_2 a b : decimal_value [a; b] = (10 * (a - 48) + (b - 48))%N.
Proof. unfold decimal_value. cbn [fold_left]. code_units. lia. Qed.

Lemma decimal_value_3 a b c :
  decimal_value [a; b; c] = (100 * (a - 48) + 10 * (b - 48) + (c - 48))%N.
Proof. unfold decimal_value. cbn [fold_left]. code_units. lia. Qed.

Lemma octet_matches i w rest :
  Matches octet_pattern i w rest <-> octet w = true.
Proof.
  unfold octet_pattern, digit_range.
  cbn [Matches terms fold_right]. split.
  - intros [H | [H | H]].
    + destruct H as (w1 & w2 & -> & -> & (w3 & w4 & -> & ->
                     & (w5 & w6 & -> & (c & -> & Hc) & ->))).
      rewrite digit_range_mem in Hc. cbn [app]. unfold octet.
      rewrite decimal_value_3. cbn [forallb List.length].
      bool_arith. digit_goal.
    + destruct H as (w1 & w2 & -> & -> & (w3 & w4 & -> & (b & -> & Hb)
                     & (w5 & w6 & -> & (c & -> & Hc) & ->))).
      rewrite digit_range_mem in Hb, Hc. cbn [app]. unfold octet.
      rewrite decimal_value_3. cbn [forallb List.length].
      bool_arith. digit_goal.
    + destruct H as (o & w2 & -> & Ho & (w3 & w4 & -> & (b & -> & Hb)
                     & (e & w6 & -> & He & ->))).
      apply optional_class_matches in Ho, He.
      rewrite digit_range_mem in Hb.
      destruct Ho as [-> | (a & -> & Ha)];
        destruct He as [-> | (c & -> & Hc)];
        try rewrite digit_range_mem in Hc;
        try (unfold class_mem in Ha; cbn [existsb atom_mem] in Ha);
        cbn [app]; unfold octet;
        rewrite ?decimal_value_1, ?decimal_value_2, ?decimal_value_3;
        cbn [forallb List.length]; bool_arith; try discriminate; digit_goal.
  - unfold octet. intro H.
    repeat (apply andb_prop in H; let H' := fresh in destruct H as [H H']).
    destruct w as [|a [|b [|c [|d w]]]]; simpl in H, H2; try discriminate.
    + (* one digit *)
      right; right. simpl in H1. rewrite andb_true_r in H1.
      exists [], [a]. repeat split; auto.
      { apply optional_class_matches. auto. }
      exists [a], []. repeat split; auto.
      { exists a. rewrite digit_range_mem. auto. }
      exists [], []. repeat split; auto. apply optional_class_matches. auto.
    + (* two digits *)
      right; right. simpl in H1. rewrite andb_true_r in H1.
      apply andb_prop in H1. destruct H1 as [Ha Hb].
      exists [], [a; b]. repeat split; auto.
      { apply optional_class_matches. auto. }
      exists [a], [b]. repeat split; auto.
      { exists a. rewrite digit_range_mem. auto. }
      exists [b], []. repeat split; auto. apply optional_class_matches.
      right. exists b. rewrite digit_range_mem. auto.
    + (* three digits *)
      simpl in H1. rewrite andb_true_r in H1.
      apply andb_prop in H1. destruct H1 as [Ha H1].
      apply andb_prop in H1. destruct H1 as [Hb Hc].
      rewrite decimal_value_3 in H0.
      destruct (N.ltb a 50) eqn:Ea; [|destruct (N.ltb b 53) eqn:Eb].
      * right; right. apply N.ltb_lt in Ea.
        exists [a], [b; c]. repeat split; auto.
        { apply optional_class_matches. right. exists a. split; [auto|].
          unfold class_mem. cbn [existsb atom_mem]. rewrite orb_false_r.
          apply orb_true_intro. bool_arith.
          destruct (N.eq_dec a 48); [left | right]; apply N.eqb_eq; lia. }
        exists [b], [c]. repeat split; auto.
        { exists b. rewrite digit_range_mem. auto. }
        exists [c], []. repeat split; auto. apply optional_class_matches.
        right. exists c. rewrite digit_range_mem. auto.
      * right; left. apply N.ltb_ge in Ea. apply N.ltb_lt in Eb.
        assert (a = cu "2") by (bool_arith; lia). subst a.
        exists [cu "2"], [b; c]. repeat split; auto.
        exists [b], [c]. repeat split; auto.
        { exists b. rewrite digit_range_mem. split; [reflexivity|].
          bool_arith. digit_goal. }
        exists [c], []. repeat split; auto.
        exists c. rewrite digit_range_mem. auto.
      * left. apply N.ltb_ge in Ea, Eb.
        assert (a = cu "2") by (bool_arith; lia). subst a.
        assert (b = cu "5") by (bool_arith; lia). subst b.
        exists [cu "2"], [cu "5"; c]. repeat split; auto.
        exists [cu "5"], [c]. repeat split; auto.
        exists [c], []. repeat split; auto.
        exists c. rewrite digit_range_mem. split; [reflexivity|].
        bool_arith. digit_goal.
Qed.

Lemma digit_is_alnum c : is_digit c = true -> is_alnum c = true.
Proof. unfold is_alnum. intros ->. apply orb_true_r. Qed.

Lemma forallb_impl {A} (f g : A -> bool) l :
  (forall a, f a = true -> g a = true) ->
  forallb f l = true -> forallb g l = true.
Proof.
  intro H. induction l as [|a l IH]; simpl; [auto|]. intro Hl.
  apply andb_prop in Hl. destruct Hl as [Ha Hl].
  rewrite (H a Ha), (IH Hl). reflexivity.
Qed.

Lemma forallb_last {A} (f : A -> bool) l d :
  l <> [] -> forallb f l = true -> f (last l d) = true.
Proof.
  intros Hne Hl. destruct (exists_last Hne) as (m & z & ->).
  rewrite last_last. rewrite forallb_app in Hl. apply andb_prop in Hl.
  destruct Hl as [_ Hz]. simpl in Hz. rewrite andb_true_r in Hz. exact Hz.
Qed.

(** Every octet is a label: the fact behind the redundancy of the IPv4 branch. *)
Lemma octet_is_label o : octet o = true -> label o = true.
Proof.
  unfold octet, label. intro H.
  repeat (apply andb_prop in H; let H' := fresh in destruct H as [H H']).
  apply Nat.leb_le in H, H2.
  assert (Hne : o <> []) by (destruct o; [simpl in H; lia | discriminate]).
  assert (Hlast := @forallb_last _ is_digit o 0%N Hne H1).
  assert (Hhd : is_digit (hd 0%N o) = true).
  { destruct o as [|a o]; [congruence|]. simpl in H1 |- *.
    apply andb_prop in H1. tauto. }
  rewrite (alnum_not_hyphen _ (digit_is_alnum _ Hhd)).
  rewrite (alnum_not_hyphen _ (digit_is_alnum _ Hlast)).
  assert (Hall : forallb (fun c => is_alnum c || is_hyphen c) o = true).
  { revert H1. apply forallb_impl. intros c Hc.
    rewrite (digit_is_alnum _ Hc). reflexivity. }
  rewrite Hall.
  replace (1 <=? List.length o) with true by (symmetry; apply Nat.leb_le; lia).
  replace (List.length o <=? 63) with true by (symmetry; apply Nat.leb_le; lia).
  reflexivity.
Qed.

Lemma octet_no_dot o : octet o = true -> no_dot o = true.
Proof. intro H. apply label_no_dot, octet_is_label, H. Qed.

Lemma ipv4_shape s :
  ipv4 s = true <->
  exists o1 o2 o3 o4,
    s = join_dots o1 [o2; o3; o4]
    /\ octet o1 = true /\ octet o2 = true /\ octet o3 = true /\ octet o4 = true.
Proof.
  unfold ipv4. split.
  - intro H. apply andb_prop in H. destruct H as [Hl Hall].
    destruct (split_dots_inv s) as (l0 & ls & Hs & E).
    rewrite Hs in Hl, Hall. apply Nat.eqb_eq in Hl.
    destruct ls as [|o2 [|o3 [|o4 [|o5 ls]]]]; try discriminate.
    simpl in Hall.
    repeat (apply andb_prop in Hall;
            let H' := fresh in destruct Hall as [H' Hall]).
    exists l0, o2, o3, o4. auto.
  - intros (o1 & o2 & o3 & o4 & -> & H1 & H2 & H3 & H4).
    rewrite split_dots_join.
    + simpl. rewrite H1, H2, H3, H4. reflexivity.
    + apply octet_no_dot, H1.
    + simpl. rewrite !octet_no_dot by assumption. reflexivity.
Qed.

(** The IPv4 grammar is included in the hostname grammar. *)
Lemma ipv4_is_hostname s : ipv4 s = true -> hostname s = true.
Proof.
  intro H. apply ipv4_shape in H.
  destruct H as (o1 & o2 & o3 & o4 & -> & H1 & H2 & H3 & H4).
  apply hostname_shape. exists o1, [o2; o3; o4]. simpl.
  rewrite !octet_is_label by assumption. auto.
Qed.

Lemma octet_dot_matches i w rest :
  Matches octet_dot i w rest <->
  exists o, w = o ++ [cu "."] /\ octet o = true.
Proof.
  unfold octet_dot. cbn [Matches terms fold_right]. split.
  - intros (o & w2 & -> & Ho & (w3 & w4 & -> & -> & ->)).
    apply octet_matches in Ho. exists o. auto.
  - intros (o & -> & Ho). exists o, [cu "."]. repeat split; auto.
    + apply octet_matches. exact Ho.
    + exists [cu "."], []. auto.
Qed.

Lemma ipRegex_matches i w rest :
  Matches ipRegex_pattern i w rest <->
  i = 0 /\ rest = [] /\ ipv4 w = true.
Proof.
  rewrite ipv4_shape.
  unfold ipRegex_pattern. cbn [Matches terms fold_right]. split.
  - intros (w1 & w2 & -> & (-> & ->) & (q & w3 & -> & (n & Hn3 & Hn3' & Hit)
            & (o4 & w4 & -> & H4 & (w5 & w6 & -> & (-> & Hend) & ->)))).
    cbn [app] in Hend. subst rest.
    assert (n = 3) by lia. subst n. cbn [Iter] in Hit.
    destruct Hit as (p1 & q1 & -> & H1 & (p2 & q2 & -> & H2
                     & (p3 & q3 & -> & H3 & ->))).
    apply octet_dot_matches in H1, H2, H3. apply octet_matches in H4.
    destruct H1 as (o1 & -> & H1). destruct H2 as (o2 & -> & H2).
    destruct H3 as (o3 & -> & H3).
    repeat split; auto. exists o1, o2, o3, o4.
    unfold join_dots. simpl. rewrite !app_nil_r, <- !app_assoc. simpl.
    repeat split; auto.
  - intros (-> & -> & (o1 & o2 & o3 & o4 & -> & H1 & H2 & H3 & H4)).
    exists [], (join_dots o1 [o2; o3; o4]). repeat split; auto.
    exists ((o1 ++ [cu "."]) ++ (o2 ++ [cu "."]) ++ (o3 ++ [cu "."]) ++ []), o4.
    split.
    { unfold join_dots. simpl. rewrite !app_nil_r, <- !app_assoc. reflexivity. }
    split.
    + exists 3. split; [lia|]. split; [lia|]. cbn [Iter].
      exists (o1 ++ [cu "."]), ((o2 ++ [cu "."]) ++ (o3 ++ [cu "."]) ++ []).
      split; [reflexivity|]. split; [apply octet_dot_matches; eauto|].
      exists (o2 ++ [cu "."]), ((o3 ++ [cu "."]) ++ []).
      split; [reflexivity|]. split; [apply octet_dot_matches; eauto|].
      exists (o3 ++ [cu "."]), [].
      split; [reflexivity|]. split; [apply octet_dot_matches; eauto|].
      reflexivity.
    + exists o4, []. rewrite app_nil_r. split; [reflexivity|].
      split; [apply octet_matches; exact H4|].
      exists [], []. auto.
Qed.

Lemma ipRegex_well_formed : well_formed ipRegex_pattern = true.
Proof. reflexivity. Qed.

Lemma ipRegex_exec s :
  fst (RegExpBuiltinExec (RegExpLiteral ipRegex_pattern) s) <> None <->
  ipv4 s = true.
Proof.
  rewrite (@RegExpBuiltinExec_literal_spec _ s ipRegex_well_formed). split.
  - intros (pre & w & rest & -> & H). apply ipRegex_matches in H.
    destruct H as (Hp & Hr & H). rewrite (@anchored_substring pre w rest Hp Hr).
    exact H.
  - intro H. exists [], s, []. rewrite app_nil_r. split; [reflexivity|].
    apply ipRegex_matches. auto.
Qed.

(* ================================================================== *)
(** ** validateTarget on strings and on other values *)

Section ValidatorFacts.
Variable other : value -> completion jsstring.

(** [test] on a literal, for a pattern whose matches are known. *)
Lemma RegExp_test_literal (p : regex) (P : jsstring -> bool) (s : jsstring) :
  (fst (RegExpBuiltinExec (RegExpLiteral p) s) <> None <-> P s = true) ->
  RegExp_test other (RegExpLiteral p) (VString s)
  = Normal (P s, RegExpLiteral p).
Proof.
  intro H. unfold RegExp_test, ToString, cbind.
  pose proof (RegExpBuiltinExec_literal p s) as Hsnd.
  destruct (RegExpBuiltinExec (RegExpLiteral p) s) as [m R'].
  simpl in H, Hsnd. subst R'.
  destruct m as [y|], (P s); try reflexivity; exfalso.
  - assert (false = true) by (apply H; discriminate). discriminate.
  - apply (proj2 H); reflexivity.
Qed.

Lemma domainRegex_test s :
  RegExp_test other (RegExpLiteral domainRegex_pattern) (VString s)
  = Normal (hostname s, RegExpLiteral domainRegex_pattern).
Proof. apply RegExp_test_literal, domainRegex_exec. Qed.

Lemma ipRegex_test s :
  RegExp_test other (RegExpLiteral ipRegex_pattern) (VString s)
  = Normal (ipv4 s, RegExpLiteral ipRegex_pattern).
Proof. apply RegExp_test_literal, ipRegex_exec. Qed.

Lemma validateTarget_string s :
  validateTarget other (VString s) = Normal (hostname s || ipv4 s).
Proof.
  unfold validateTarget. destruct s as [|c s]; [reflexivity|].
  cbn [ToBoolean typeof negb orb String.eqb].
  change (("string" =? "string")%string) with true. cbn [negb orb].
  rewrite domainRegex_test. cbn [cbind].
  destruct (hostname (c :: s)); [reflexivity|].
  rewrite ipRegex_test. reflexivity.
Qed.

Lemma validateTarget_not_string v :
  (forall s, v <> VString s) -> validateTarget other v = Normal false.
Proof.
  intro H. unfold validateTarget.
  destruct v; try (exfalso; eapply H; reflexivity);
    try reflexivity;
    cbn [typeof]; rewrite orb_true_r; reflexivity.
Qed.

Lemma validateTarget_total v : exists b, validateTarget other v = Normal b.
Proof.
  destruct v;
    try (exists false; apply validateTarget_not_string; intros; discriminate).
  eexists. apply validateTarget_string.
Qed.

Lemma validateTarget_true_inv v :
  validateTarget other v = Normal true ->
  exists s, v = VString s /\ hostname s || ipv4 s = true.
Proof.
  intro H. destruct v;
    try (rewrite validateTarget_not_string in H by (intros; discriminate);
         discriminate).
  rewrite validateTarget_string in H. injection H as H. eauto.
Qed.
End ValidatorFacts.

Lemma label_safe l : label l = true -> forallb safe_char l = true.
Proof.
  unfold label. intro H.
  repeat (apply andb_prop in H; let H' := fresh in destruct H as [H H']).
  revert H2. apply forallb_impl. exact label_char_safe.
Qed.

Lemma hostname_safe s : hostname s = true -> forallb safe_char s = true.
Proof.
  intro H. apply hostname_shape in H. destruct H as (l0 & ls & -> & H0 & Hls).
  unfold join_dots. rewrite forallb_app, (label_safe _ H0). simpl.
  induction ls as [|l ls IH]; [reflexivity|].
  simpl in Hls. apply andb_prop in Hls. destruct Hls as [Hl Hls].
  cbn [map List.concat]. rewrite forallb_app. cbn [forallb app].
  rewrite (label_safe _ Hl), (IH Hls).
  replace (safe_char (cu ".")) with true by reflexivity. reflexivity.
Qed.

(* ================================================================== *)
(** ** Executions of runCommand and of the handlers *)

Lemma runCommand_run env command timeout_arg :
  let t := match timeout_arg with Some t => t | None => 30000%Z end in
  run env (runCommand command timeout_arg) =
  ([Spawn command t],
   Normal match error (exec_answer env command t) with
          | Some err => Rejected (failure_envelope (message err) (clock env))
          | None =>
              Fulfilled (success_envelope
                           (js_or (VString (stdout (exec_answer env command t)))
                                  (VString (stderr (exec_answer env command t))))
                           (clock env))
          end).
Proof.
  intro t. unfold runCommand. fold t. cbn [run].
  destruct (error (exec_answer env command t)); reflexivity.
Qed.

Section HandlerFacts.
Variable other : value -> completion jsstring.

Lemma template_string prefix s :
  template other prefix (VString s) = Normal (lit prefix ++ s).
Proof. reflexivity. Qed.

Ltac handler_run Hd Hv :=
  rewrite Hd; cbn [lift bind]; rewrite Hv; cbn [lift bind negb try_catch run];
  match goal with |- context [jsstring_eqb ?p ?w] =>
    destruct (jsstring_eqb p w) end;
  rewrite template_string; cbn [lift bind runCommand try_catch run];
  match goal with |- context [error ?r] => destruct (error r) end;
  reflexivity.

Lemma ping_handler_run env req s :
  destructure_target (body req) = Normal (VString s) ->
  validateTarget other (VString s) = Normal true ->
  let cmd := lit (if jsstring_eqb (process_platform env) (lit "win32")
                  then "ping -n 4 " else "ping -c 4 ") ++ s in
  let r := exec_answer env cmd 30000 in
  run env (ping_handler other req) =
  ([Spawn cmd 30000;
    match error r with
    | Some err => Send 500 (failure_envelope (message err) (clock env))
    | None => Send 200 (success_envelope
                          (js_or (VString (stdout r)) (VString (stderr r)))
                          (clock env))
    end], Normal tt).
Proof.
  intros Hd Hv cmd r. subst cmd r. unfold ping_handler. handler_run Hd Hv.
Qed.

Lemma traceroute_handler_run env req s :
  destructure_target (body req) = Normal (VString s) ->
  validateTarget other (VString s) = Normal true ->
  let cmd := lit (if jsstring_eqb (process_platform env) (lit "win32")
                  then "tracert " else "traceroute ") ++ s in
  let r := exec_answer env cmd 60000 in
  run env (traceroute_handler other req) =
  ([Spawn cmd 60000;
    match error r with
    | Some err => Send 500 (failure_envelope (message err) (clock env))
    | None => Send 200 (success_envelope
                          (js_or (VString (stdout r)) (VString (stderr r)))
                          (clock env))
    end], Normal tt).
Proof.
  intros Hd Hv cmd r. subst cmd r. unfold traceroute_handler. handler_run Hd Hv.
Qed.

Lemma ping_handler_invalid req target :
  destructure_target (body req) = Normal target ->
  validateTarget other target = Normal false ->
  ping_handler other req = Respond 400 invalid_target_body (Ret tt).
Proof. intros Hd Hv. unfold ping_handler. rewrite Hd. cbn. rewrite Hv. reflexivity. Qed.

Lemma traceroute_handler_invalid req target :
  destructure_target (body req) = Normal target ->
  validateTarget other target = Normal false ->
  traceroute_handler other req = Respond 400 invalid_target_body (Ret tt).
Proof. intros Hd Hv. unfold traceroute_handler. rewrite Hd. cbn. rewrite Hv. reflexivity. Qed.

(** Once the body has been destructured, a handler always ends normally. *)
Lemma handlers_complete env req target :
  destructure_target (body req) = Normal target ->
  snd (run env (ping_handler other req)) = Normal tt
  /\ snd (run env (traceroute_handler other req)) = Normal tt.
Proof.
  intro Hd. destruct (validateTarget_total other target) as ([|] & Hv).
  - destruct (validateTarget_true_inv _ _ Hv) as (s & -> & _).
    rewrite (ping_handler_run env _ Hd Hv), (traceroute_handler_run env _ Hd Hv).
    split; reflexivity.
  - rewrite (ping_handler_invalid _ Hd Hv), (traceroute_handler_invalid _ Hd Hv).
    split; reflexivity.
Qed.
End HandlerFacts.

(* ================================================================== *)
(** ** The claims of the specification *)


(** C1 (counterexample).  ["256.1.1.1"] is accepted: its four numeric
    labels satisfy the hostname grammar, so the claim's
    [validateTarget("256.1.1.1") = false] does not hold. *)
Lemma validateTarget_accepts_256_1_1_1 :
  validateTarget conversion_throws (VString (lit "256.1.1.1")) = Normal true
  /\ Grammar.hostname (lit "256.1.1.1") = true
  /\ Grammar.ipv4 (lit "256.1.1.1") = false.
Proof. repeat split; vm_compute; reflexivity. Qed.

(** C1 (amended).  For every string [s], [validateTarget(s)] is true
    exactly when [s] is, in full, a hostname of the hostname grammar or a
    dotted quad of the IPv4 grammar; in particular ["192.168.1.1"] and
    ["good-host.example.com"] are accepted, ["-bad.com"] is rejected, and
    ["256.1.1.1"] is accepted (as a hostname). *)
Theorem validateTarget_grammar (other : value -> completion jsstring) (s : jsstring) :
  validateTarget other (VString s) = Normal (Grammar.hostname s || Grammar.ipv4 s)
  /\ validateTarget other (VString (lit "256.1.1.1")) = Normal true
  /\ validateTarget other (VString (lit "192.168.1.1")) = Normal true
  /\ validateTarget other (VString (lit "-bad.com")) = Normal false
  /\ validateTarget other (VString (lit "good-host.example.com")) = Normal true.
Proof.
  split; [apply validateTarget_string|].
  rewrite !validateTarget_string. repeat split; vm_compute; reflexivity.
Qed.

(** C2.  Whatever [validateTarget] accepts is a string all of whose
    characters are in [[A-Za-z0-9.-]]; and the command line a handler builds
    from it by concatenation is one of the fixed prefixes followed by that
    string, nothing else. *)
Theorem validateTarget_safe_characters (other : value -> completion jsstring)
    (v : value) :
  validateTarget other v = Normal true ->
  exists s, v = VString s
    /\ forallb Grammar.safe_char s = true
    /\ forall env req,
         destructure_target (body req) = Normal v ->
         (exists prefix, In prefix ["ping -n 4 "; "ping -c 4 "]%string
            /\ commands (fst (run env (ping_handler other req))) = [lit prefix ++ s])
         /\ (exists prefix, In prefix ["tracert "; "traceroute "]%string
            /\ commands (fst (run env (traceroute_handler other req)))
               = [lit prefix ++ s]).
Proof.
  intro H. destruct (validateTarget_true_inv _ _ H) as (s & -> & Hs).
  exists s. split; [reflexivity|]. split.
  - apply hostname_safe.
    apply orb_prop in Hs. destruct Hs as [Hs | Hs]; [exact Hs|].
    apply ipv4_is_hostname, Hs.
  - intros env req Hd.
    rewrite (@ping_handler_run other env req s Hd H),
            (@traceroute_handler_run other env req s Hd H).
    cbv zeta. cbn [fst].
    destruct (jsstring_eqb (process_platform env) (lit "win32")); split;
      eexists; (split; [|cbn [commands]; destruct (error _); reflexivity]);
      simpl; auto.
Qed.

Lemma validateTarget_safe_characters_witness :
  validateTarget conversion_throws (VString (lit "good-host.example.com")) = Normal true
  /\ exists s, VString (lit "good-host.example.com") = VString s
               /\ forallb Grammar.safe_char s = true.
Proof.
  assert (H : validateTarget conversion_throws (VString (lit "good-host.example.com"))
              = Normal true) by (vm_compute; reflexivity).
  split; [exact H|].
  destruct (@validateTarget_safe_characters conversion_throws _ H) as (s & E & Hs & _).
  exists s. split; assumption.
Defined.

(** C3.  When the target of a POST /api/ping or POST /api/traceroute request
    fails [validateTarget], the handler answers 400 with
    [{success:false, error:"Invalid target..."}] and does nothing else: in
    particular it never reaches [runCommand], so no process is spawned. *)
Theorem invalid_target_never_runs (other : value -> completion jsstring)
    (req : request) (target : value) :
  destructure_target (body req) = Normal target ->
  validateTarget other target = Normal false ->
  ping_handler other req = Respond 400 invalid_target_body (Ret tt)
  /\ traceroute_handler other req = Respond 400 invalid_target_body (Ret tt)
  /\ (forall env,
        run env (ping_handler other req) = ([Send 400 invalid_target_body], Normal tt)
        /\ run env (traceroute_handler other req)
           = ([Send 400 invalid_target_body], Normal tt)
        /\ commands (fst (run env (ping_handler other req))) = []
        /\ commands (fst (run env (traceroute_handler other req))) = [])
  /\ exists rest,
       invalid_target_body
       = VObject [("success"%string, VBoolean false);
                  ("error"%string, VString (lit "Invalid target" ++ rest))].
Proof.
  intros Hd Hv.
  rewrite (@ping_handler_invalid other req target Hd Hv),
          (@traceroute_handler_invalid other req target Hd Hv).
  repeat split.
  eexists. reflexivity.
Qed.

Lemma invalid_target_never_runs_witness :
  let req := request_for "a.com; rm -rf /" in
  let target := VString (lit "a.com; rm -rf /") in
  destructure_target (body req) = Normal target
  /\ validateTarget conversion_throws target = Normal false
  /\ run (quiet_environment "linux") (ping_handler conversion_throws req)
     = ([Send 400 invalid_target_body], Normal tt).
Proof.
  intros req target.
  assert (Hd : destructure_target (body req) = Normal target)
    by (vm_compute; reflexivity).
  assert (Hv : validateTarget conversion_throws target = Normal false)
    by (vm_compute; reflexivity).
  split; [exact Hd|]. split; [exact Hv|].
  exact (proj1 (proj1 (proj2 (proj2
    (@invalid_target_never_runs conversion_throws req target Hd Hv)))
    (quiet_environment "linux"))).
Defined.

(** C4.  When [exec] reports an error (the process exited with a non-zero
    status, was killed at the deadline, or could not be spawned), the promise
    of [runCommand] is rejected, not resolved, with
    [{success:false, error:<the error's message>, timestamp:<the string
    new Date().toISOString() returned>}]; each handler catches the rejection
    and sends it as the body of a 500 response; and a handler never ends
    with an uncaught exception, whatever [exec] reports. *)
Theorem process_failure_is_rejected_and_caught (other : value -> completion jsstring) :
  (forall env command timeout_arg err,
      let t := match timeout_arg with Some t => t | None => 30000%Z end in
      error (exec_answer env command t) = Some err ->
      run env (runCommand command timeout_arg)
      = ([Spawn command t],
         Normal (Rejected (VObject [("success"%string, VBoolean false);
                                    ("error"%string, VString (message err));
                                    ("timestamp"%string, VString (clock env))]))))
  /\ (forall env req s err,
        destructure_target (body req) = Normal (VString s) ->
        validateTarget other (VString s) = Normal true ->
        let windows := jsstring_eqb (process_platform env) (lit "win32") in
        let ping := lit (if windows then "ping -n 4 " else "ping -c 4 ") ++ s in
        let trace := lit (if windows then "tracert " else "traceroute ") ++ s in
        let rejection :=
          VObject [("success"%string, VBoolean false);
                   ("error"%string, VString (message err));
                   ("timestamp"%string, VString (clock env))] in
        (error (exec_answer env ping 30000) = Some err ->
         run env (ping_handler other req)
         = ([Spawn ping 30000; Send 500 rejection], Normal tt))
        /\ (error (exec_answer env trace 60000) = Some err ->
            run env (traceroute_handler other req)
            = ([Spawn trace 60000; Send 500 rejection], Normal tt)))
  /\ (forall env req target,
        destructure_target (body req) = Normal target ->
        snd (run env (ping_handler other req)) = Normal tt
        /\ snd (run env (traceroute_handler other req)) = Normal tt).
Proof.
  split; [|split].
  - intros env command timeout_arg err t H.
    pose proof (runCommand_run env command timeout_arg) as Hr.
    cbv zeta in Hr. fold t in Hr. rewrite H in Hr. exact Hr.
  - intros env req s err Hd Hv windows ping trace rejection.
    split; intro He.
    + rewrite (@ping_handler_run other env req s Hd Hv). cbv zeta.
      fold windows. fold ping. rewrite He. reflexivity.
    + rewrite (@traceroute_handler_run other env req s Hd Hv). cbv zeta.
      fold windows. fold trace. rewrite He. reflexivity.
  - intros env req target Hd. exact (@handlers_complete other env req target Hd).
Qed.

Lemma process_failure_is_rejected_and_caught_witness :
  let env := deadline_environment "linux" in
  let req := request_for "example.com" in
  let cmd := lit "ping -c 4 example.com" in
  error (exec_answer env cmd 30000) = Some (deadline_error cmd)
  /\ run env (runCommand cmd None)
     = ([Spawn cmd 30000],
        Normal (Rejected (failure_envelope (message (deadline_error cmd)) (clock env))))
  /\ run env (ping_handler conversion_throws req)
     = ([Spawn cmd 30000;
         Send 500 (failure_envelope (message (deadline_error cmd)) (clock env))],
        Normal tt).
Proof.
  intros env req cmd.
  assert (He : error (exec_answer env cmd 30000) = Some (deadline_error cmd))
    by reflexivity.
  split; [exact He|]. split.
  - exact (proj1 (process_failure_is_rejected_and_caught conversion_throws)
             env cmd None (deadline_error cmd) He).
  - refine (proj1 (proj1 (proj2 (process_failure_is_rejected_and_caught
                                   conversion_throws))
                         env req (lit "example.com") (deadline_error cmd) _ _) He);
      vm_compute; reflexivity.
Defined.

(** C5.  When [exec] reports no error (the process exited cleanly), the
    promise of [runCommand] resolves with [{success:true, output:<stdout if
    it is not empty, stderr otherwise>, timestamp:<the string
    new Date().toISOString() returned>}]. *)
Theorem clean_exit_resolves (env : environment) (command : jsstring)
    (timeout_arg : option Z) :
  let t := match timeout_arg with Some t => t | None => 30000%Z end in
  let r := exec_answer env command t in
  error r = None ->
  run env (runCommand command timeout_arg)
  = ([Spawn command t],
     Normal (Fulfilled
               (VObject [("success"%string, VBoolean true);
                         ("output"%string,
                          VString match stdout r with
                                  | [] => stderr r
                                  | _ :: _ => stdout r
                                  end);
                         ("timestamp"%string, VString (clock env))]))).
Proof.
  intros t r H.
  pose proof (runCommand_run env command timeout_arg) as Hr.
  cbv zeta in Hr. fold t in Hr. fold r in Hr. rewrite H in Hr. rewrite Hr.
  unfold success_envelope, js_or. cbn [ToBoolean].
  destruct (stdout r); reflexivity.
Qed.

Lemma clean_exit_resolves_witness :
  let env := quiet_environment "linux" in
  let cmd := lit "ping -c 4 127.0.0.1" in
  error (exec_answer env cmd 30000) = None
  /\ run env (runCommand cmd None)
     = ([Spawn cmd 30000],
        Normal (Fulfilled (success_envelope (VString (lit "warning")) (clock env)))).
Proof.
  intros env cmd.
  assert (He : error (exec_answer env cmd 30000) = None) by reflexivity.
  split; [exact He|].
  exact (@clean_exit_resolves env cmd None He).
Defined.

(** C6 (counterexample).  A ping whose child [exec] has killed at the
    30000 ms deadline: the error carries [killed = true] and Node's generic
    message, and the 500 envelope repeats that message, which does not speak
    of a timeout. *)
Lemma deadline_kill_envelope_lacks_timeout :
  let env := deadline_environment "linux" in
  let req := request_for "example.com" in
  let cmd := lit "ping -c 4 example.com" in
  killed (deadline_error cmd) = true
  /\ run env (ping_handler conversion_throws req)
     = ([Spawn cmd 30000;
         Send 500 (failure_envelope (lit "Command failed: ping -c 4 example.com" ++ [10%N])
                                    (clock env))],
        Normal tt)
  /\ mentions_timeout (lit "Command failed: ping -c 4 example.com" ++ [10%N]) = false.
Proof. repeat split; vm_compute; reflexivity. Qed.

(** C6 (amended).  Every ping hands [exec] a deadline of 30000 ms and every
    traceroute one of 60000 ms; when [exec] reports an error (which is how
    the kill at the deadline arrives), the request is answered 500 with a
    failure envelope whose [error] is the message [exec] supplied, as it is,
    and the handler ends normally rather than with an unhandled rejection. *)
Theorem deadlines_and_failure_envelope (other : value -> completion jsstring)
    (env : environment) (req : request) (s : jsstring) :
  destructure_target (body req) = Normal (VString s) ->
  validateTarget other (VString s) = Normal true ->
  let windows := jsstring_eqb (process_platform env) (lit "win32") in
  let ping := lit (if windows then "ping -n 4 " else "ping -c 4 ") ++ s in
  let trace := lit (if windows then "tracert " else "traceroute ") ++ s in
  timeouts (fst (run env (ping_handler other req))) = [30000%Z]
  /\ timeouts (fst (run env (traceroute_handler other req))) = [60000%Z]
  /\ (forall err,
        error (exec_answer env ping 30000) = Some err ->
        run env (ping_handler other req)
        = ([Spawn ping 30000;
            Send 500 (failure_envelope (message err) (clock env))], Normal tt))
  /\ (forall err,
        error (exec_answer env trace 60000) = Some err ->
        run env (traceroute_handler other req)
        = ([Spawn trace 60000;
            Send 500 (failure_envelope (message err) (clock env))], Normal tt)).
Proof.
  intros Hd Hv windows ping trace.
  rewrite (@ping_handler_run other env req s Hd Hv),
          (@traceroute_handler_run other env req s Hd Hv).
  cbv zeta. fold windows. fold ping. fold trace. cbn [fst].
  repeat split.
  - destruct (error _); reflexivity.
  - destruct (error _); reflexivity.
  - intros err He. rewrite He. reflexivity.
  - intros err He. rewrite He. reflexivity.
Qed.

Lemma deadlines_and_failure_envelope_witness :
  let env := deadline_environment "linux" in
  let req := request_for "example.com" in
  destructure_target (body req) = Normal (VString (lit "example.com"))
  /\ validateTarget conversion_throws (VString (lit "example.com")) = Normal true
  /\ timeouts (fst (run env (ping_handler conversion_throws req))) = [30000%Z]
  /\ timeouts (fst (run env (traceroute_handler conversion_throws req))) = [60000%Z].
Proof.
  intros env req.
  assert (Hd : destructure_target (body req) = Normal (VString (lit "example.com")))
    by reflexivity.
  assert (Hv : validateTarget conversion_throws (VString (lit "example.com"))
               = Normal true) by (vm_compute; reflexivity).
  split; [exact Hd|]. split; [exact Hv|].
  pose proof (@deadlines_and_failure_envelope conversion_throws env req
                (lit "example.com") Hd Hv) as H.
  cbv zeta in H. split; [exact (proj1 H) | exact (proj1 (proj2 H))].
Defined.




(** C8.  [validateTarget(undefined)], [validateTarget(123)] and
    [validateTarget("")] are false, and [validateTarget] completes normally
    on every value, of any type, however [ToString] behaves on values that
    are not strings. *)
Theorem validateTarget_never_throws (other : value -> completion jsstring) :
  validateTarget other VUndefined = Normal false
  /\ validateTarget other (VNumber 123%float) = Normal false
  /\ validateTarget other (VString []) = Normal false
  /\ forall v, exists b, validateTarget other v = Normal b.
Proof.
  repeat split; try reflexivity. apply validateTarget_total.
Qed.

Lemma heap_update_same (h : heap) :
  forall r R, nth_error h r = Some R -> heap_update h r R = h.
Proof.
  induction h as [|x h IH]; intros [|r] R H; simpl in *; try congruence.
  rewrite (IH r R H). reflexivity.
Qed.

Lemma nth_error_fresh (h : heap) (R : RegExp) (more : heap) :
  nth_error (h ++ R :: more) (List.length h) = Some R.
Proof. rewrite nth_error_app2, Nat.sub_diag by lia. reflexivity. Qed.

(** The heap does carry state: on an object with the [g] flag, the same
    [test] answers [true] and then [false]. *)
Lemma test_at_global_is_stateful :
  let '(r, h) := RegExpCreate (Char (cu "a")) true false [] in
  let '(first, h1) := test_at conversion_throws r (VString (lit "a")) h in
  let '(second, _) := test_at conversion_throws r (VString (lit "a")) h1 in
  first = Normal true /\ second = Normal false.
Proof. vm_compute. split; reflexivity. Qed.

Lemma test_at_fresh_literal (other : value -> completion jsstring) (p : regex)
    (P : jsstring -> bool) (h more : heap) (s : jsstring) :
  (forall s, RegExp_test other (RegExpLiteral p) (VString s)
             = Normal (P s, RegExpLiteral p)) ->
  test_at other (List.length h) (VString s) (h ++ mkRegExp p false false 0 :: more)
  = (Normal (P s), h ++ mkRegExp p false false 0 :: more).
Proof.
  intro Ht. unfold test_at. rewrite nth_error_fresh.
  change (mkRegExp p false false 0) with (RegExpLiteral p). rewrite Ht.
  rewrite heap_update_same by apply nth_error_fresh. reflexivity.
Qed.

(** A call leaves the heap as it found it, but for the two objects of its
    own literals, and answers what [validateTarget] answers. *)
Lemma validateTarget_heap_spec (other : value -> completion jsstring)
    (v : value) (h : heap) :
  exists fresh,
    validateTarget_heap other v h = (validateTarget other v, h ++ fresh).
Proof.
  destruct v;
    try (exists []; rewrite app_nil_r;
         rewrite validateTarget_not_string by (intros; discriminate);
         unfold validateTarget_heap; cbn [typeof];
         rewrite ?orb_true_r; reflexivity).
  destruct s as [|c s].
  - exists []. rewrite app_nil_r. reflexivity.
  - exists [RegExpLiteral domainRegex_pattern; RegExpLiteral ipRegex_pattern].
    rewrite validateTarget_string. unfold validateTarget_heap, RegExpCreate.
    cbn [ToBoolean typeof negb orb].
    change (("string" =? "string")%string) with true. cbn [negb orb].
    rewrite <- app_assoc. cbn [app].
    rewrite (@test_at_fresh_literal other domainRegex_pattern Grammar.hostname h
               [mkRegExp ipRegex_pattern false false 0] (c :: s)
               (domainRegex_test other)).
    destruct (Grammar.hostname (c :: s)); [reflexivity|].
    rewrite length_app. cbn [List.length]. rewrite Nat.add_1_r.
    replace (S (List.length h))
      with (List.length (h ++ [mkRegExp domainRegex_pattern false false 0]))
      by (rewrite length_app; cbn [List.length]; lia).
    change (h ++ [mkRegExp domainRegex_pattern false false 0;
                  mkRegExp ipRegex_pattern false false 0])
      with (h ++ [mkRegExp domainRegex_pattern false false 0]
              ++ [mkRegExp ipRegex_pattern false false 0]).
    rewrite app_assoc.
    rewrite (@test_at_fresh_literal other ipRegex_pattern Grammar.ipv4
               (h ++ [mkRegExp domainRegex_pattern false false 0]) [] (c :: s)
               (ipRegex_test other)).
    rewrite <- app_assoc. reflexivity.
Qed.

Lemma session_results (other : value -> completion jsstring) (inputs : list value) :
  forall h, fst (session other inputs h) = map (validateTarget other) inputs.
Proof.
  induction inputs as [|v rest IH]; intro h; [reflexivity|].
  cbn [session map].
  destruct (validateTarget_heap_spec other v h) as (fresh & ->).
  specialize (IH (h ++ fresh)).
  destruct (session other rest (h ++ fresh)) as [rs h2].
  cbn [fst] in IH |- *. rewrite IH. reflexivity.
Qed.

(** C9.  [validateTarget] is deterministic and keeps no state.  With the
    heap of RegExp objects threaded through the calls: the answer of a call
    is the same on every heap, whatever earlier code left there; a call
    leaves every object that existed before it as it was (it only adds the
    objects of its own two literals); and in any series of calls, from any
    heap, two calls with the same input return the same boolean, whatever
    was called before, between or after. *)
Theorem validateTarget_deterministic (other : value -> completion jsstring)
    (v : value) :
  (forall h1 h2,
      fst (validateTarget_heap other v h1) = fst (validateTarget_heap other v h2))
  /\ (forall h, exists fresh, snd (validateTarget_heap other v h) = h ++ fresh)
  /\ (forall (before between after : list value) (h : heap),
        let results :=
          fst (session other (before ++ v :: between ++ v :: after) h) in
        exists b,
          nth_error results (List.length before) = Some (Normal b)
          /\ nth_error results (List.length before + S (List.length between))
             = Some (Normal b))
  /\ (forall h, fst (validateTarget_heap other v h) = validateTarget other v).
Proof.
  assert (Hfst : forall h, fst (validateTarget_heap other v h) = validateTarget other v).
  { intro h. destruct (validateTarget_heap_spec other v h) as (fresh & ->).
    reflexivity. }
  split; [intros h1 h2; rewrite !Hfst; reflexivity|].
  split.
  { intro h. destruct (validateTarget_heap_spec other v h) as (fresh & ->).
    exists fresh. reflexivity. }
  split; [|exact Hfst].
  intros before between after h results. subst results.
  rewrite session_results.
  destruct (validateTarget_total other v) as (b & Hb). exists b.
  rewrite map_app. cbn [map]. rewrite map_app. cbn [map]. rewrite Hb. split.
  - rewrite nth_error_app2; rewrite length_map; [|lia].
    rewrite Nat.sub_diag. reflexivity.
  - rewrite nth_error_app2; rewrite length_map; [|lia].
    replace (List.length before + S (List.length between) - List.length before)
      with (S (List.length between)) by lia.
    cbn [nth_error].
    rewrite nth_error_app2; rewrite length_map; [|lia].
    rewrite Nat.sub_diag. reflexivity.
Qed.

(** C10.  The IPv4 branch is redundant: whatever the IPv4 pattern matches
    in full, the hostname pattern matches in full, so on every string
    [validateTarget] answers what the hostname pattern's [test] answers. *)
Theorem ipRegex_branch_redundant (other : value -> completion jsstring)
    (s : jsstring) :
  (test_result other ipRegex_pattern s = Normal true ->
   test_result other domainRegex_pattern s = Normal true)
  /\ validateTarget other (VString s) = test_result other domainRegex_pattern s.
Proof.
  unfold test_result. rewrite domainRegex_test, ipRegex_test. cbn [cbind fst].
  rewrite validateTarget_string. split.
  - intro H. injection H as H. rewrite (ipv4_is_hostname _ H). reflexivity.
  - destruct (Grammar.hostname s) eqn:Eh; [reflexivity|].
    destruct (Grammar.ipv4 s) eqn:Ei; [|reflexivity].
    rewrite (ipv4_is_hostname _ Ei) in Eh. discriminate.
Qed.

Lemma ipRegex_branch_redundant_witness :
  test_result conversion_throws ipRegex_pattern (lit "192.168.1.1") = Normal true
  /\ test_result conversion_throws domainRegex_pattern (lit "192.168.1.1") = Normal true.
Proof.
  assert (H : test_result conversion_throws ipRegex_pattern (lit "192.168.1.1")
              = Normal true) by (vm_compute; reflexivity).
  split; [exact H|].
  exact (proj1 (@ipRegex_branch_redundant conversion_throws (lit "192.168.1.1")) H).
Defined.

(* ================================================================== *)
(** ** Further properties of the validator *)

Lemma validateTarget_hostname (other : value -> completion jsstring) (s : jsstring) :
  validateTarget other (VString s) = Normal (hostname s).
Proof.
  rewrite validateTarget_string.
  destruct (hostname s) eqn:Eh; [reflexivity|].
  destruct (ipv4 s) eqn:Ei; [|reflexivity].
  rewrite (ipv4_is_hostname _ Ei) in Eh. discriminate.
Qed.

Lemma split_dots_cons_piece s : exists p ps, split_dots s = p :: ps.
Proof. destruct (split_dots_inv s) as (p & ps & E & _). eauto. Qed.

Lemma split_dots_around_dot a :
  forall b, split_dots (a ++ cu "." :: b) = split_dots a ++ split_dots b.
Proof.
  induction a as [|c a IH]; intro b.
  - reflexivity.
  - cbn [app split_dots]. rewrite IH. destruct (is_dot c); [reflexivity|].
    destruct (split_dots_cons_piece a) as (p & ps & ->). reflexivity.
Qed.

Lemma hostname_around_dot a b :
  hostname (a ++ cu "." :: b) = hostname a && hostname b.
Proof. unfold hostname. rewrite split_dots_around_dot. apply forallb_app. Qed.

(** X2.  A dot composes: [a.b] is accepted exactly when [a] and [b] both
    are, for all strings [a] and [b]; so the validator bounds each label but
    not the number of labels nor the total length. *)
Theorem validateTarget_dot_composes (other : value -> completion jsstring)
    (a b : jsstring) :
  validateTarget other (VString (a ++ lit "." ++ b))
  = (va <- validateTarget other (VString a) ;;
     vb <- validateTarget other (VString b) ;;
     Normal (va && vb))%completion.
Proof.
  rewrite !validateTarget_hostname. cbn [cbind].
  change (lit "." ++ b) with (cu "." :: b).
  rewrite hostname_around_dot. reflexivity.
Qed.

(** X3.  An empty label is never accepted: a trailing dot, a leading dot
    and two dots in a row each make the target invalid. *)
Theorem validateTarget_rejects_empty_labels (other : value -> completion jsstring)
    (a b : jsstring) :
  validateTarget other (VString (a ++ lit ".")) = Normal false
  /\ validateTarget other (VString (lit "." ++ b)) = Normal false
  /\ validateTarget other (VString (a ++ lit ".." ++ b)) = Normal false.
Proof.
  rewrite !validateTarget_hostname.
  change (lit ".") with [cu "."].
  change (lit ".." ++ b) with (cu "." :: cu "." :: b).
  change ([cu "."] ++ b) with ([] ++ cu "." :: b).
  rewrite !hostname_around_dot.
  change (hostname []) with false.
  rewrite !andb_false_r. cbn [andb]. auto.
Qed.

Lemma repeat_last (c : code_unit) n d : last (repeat c (S n)) d = c.
Proof.
  induction n as [|n IH]; [reflexivity|].
  change (repeat c (S (S n))) with (c :: repeat c (S n)).
  change (last (c :: repeat c (S n)) d) with (last (repeat c (S n)) d).
  exact IH.
Qed.

Lemma repeat_forallb (f : code_unit -> bool) c n :
  f c = true -> forallb f (repeat c n) = true.
Proof. intro H. induction n; simpl; [auto | rewrite H, IHn; auto]. Qed.

(** X1.  The label bound is exactly 63: a run of [n] copies of one
    alphanumeric character is accepted if and only if [1 <= n <= 63]. *)
Theorem validateTarget_label_length_bound (other : value -> completion jsstring)
    (c : code_unit) (n : nat) :
  is_alnum c = true ->
  validateTarget other (VString (repeat c n))
  = Normal ((1 <=? n) && (n <=? 63)).
Proof.
  intro Hc. rewrite validateTarget_hostname. f_equal.
  assert (Hnd : no_dot (repeat c n) = true).
  { apply repeat_forallb. rewrite (label_char_not_dot c); [reflexivity|].
    rewrite Hc. reflexivity. }
  unfold hostname. rewrite (split_dots_no_dot _ Hnd). cbn [forallb].
  rewrite andb_true_r. unfold label. rewrite repeat_length.
  destruct n as [|n]; [reflexivity|].
  rewrite repeat_last. cbn [repeat hd].
  rewrite (alnum_not_hyphen _ Hc). cbn [negb]. rewrite !andb_true_r.
  change (c :: repeat c n) with (repeat c (S n)).
  rewrite repeat_forallb by (rewrite Hc; reflexivity).
  rewrite andb_true_r. reflexivity.
Qed.

Lemma validateTarget_label_length_bound_witness :
  is_alnum (cu "a") = true
  /\ validateTarget conversion_throws (VString (repeat (cu "a") 63)) = Normal true
  /\ validateTarget conversion_throws (VString (repeat (cu "a") 64)) = Normal false.
Proof.
  assert (H : is_alnum (cu "a") = true) by reflexivity.
  split; [exact H|]. split.
  - exact (@validateTarget_label_length_bound conversion_throws (cu "a") 63 H).
  - exact (@validateTarget_label_length_bound conversion_throws (cu "a") 64 H).
Defined.

Lemma last_app_nonempty (a b : jsstring) d : b <> [] -> last (a ++ b) d = last b d.
Proof.
  intro Hb. induction a as [|x a IH]; [reflexivity|].
  cbn [app].
  assert (Hne : a ++ b <> []).
  { intro E. apply app_eq_nil in E. destruct E. contradiction. }
  destruct (a ++ b) as [|y r]; [congruence | exact IH].
Qed.

Lemma label_ends (l : jsstring) :
  label l = true ->
  l <> [] /\ is_alnum (hd 0%N l) = true /\ is_alnum (last l 0%N) = true.
Proof.
  intro H. apply label_shape in H. destruct H as (a & t & -> & Ha & Ht).
  split; [discriminate|]. split; [exact Ha|].
  destruct Ht as [-> | (m & d & -> & _ & _ & Hd)]; [exact Ha|].
  change (a :: m ++ [d]) with ((a :: m) ++ [d]). rewrite last_last. exact Hd.
Qed.

Lemma join_dots_last ls :
  forall l0, label l0 = true -> forallb label ls = true ->
    is_alnum (last (join_dots l0 ls) 0%N) = true.
Proof.
  unfold join_dots. induction ls as [|l ls IH]; intros l0 H0 Hls.
  - cbn [map List.concat]. rewrite app_nil_r. apply label_ends, H0.
  - cbn [forallb] in Hls. apply andb_prop in Hls. destruct Hls as [Hl Hls].
    cbn [map List.concat].
    rewrite last_app_nonempty by discriminate.
    change ((cu "." :: l) ++ List.concat (map (cons (cu ".")) ls))
      with (cu "." :: (l ++ List.concat (map (cons (cu ".")) ls))).
    destruct (label_ends _ Hl) as (Hne & _ & _).
    pose proof (IH l Hl Hls) as Hlast.
    assert (Hne' : l ++ List.concat (map (cons (cu ".")) ls) <> []).
    { intro E. apply app_eq_nil in E. destruct E. contradiction. }
    destruct (l ++ List.concat (map (cons (cu ".")) ls)) as [|y r];
      [congruence | exact Hlast].
Qed.

(** X4.  An accepted target is not empty and both its first and its last
    character are alphanumeric: it never starts with a hyphen, so the
    argument appended to the command line cannot be read as an option. *)
Theorem validateTarget_alphanumeric_ends (other : value -> completion jsstring)
    (v : value) :
  validateTarget other v = Normal true ->
  exists c rest, v = VString (c :: rest)
    /\ is_alnum c = true
    /\ is_hyphen c = false
    /\ is_alnum (last (c :: rest) 0%N) = true.
Proof.
  intro H. destruct (validateTarget_true_inv _ _ H) as (s & -> & _).
  rewrite validateTarget_hostname in H. injection H as H.
  apply hostname_shape in H. destruct H as (l0 & ls & -> & H0 & Hls).
  pose proof (join_dots_last ls l0 H0 Hls) as Hlast.
  apply label_shape in H0. destruct H0 as (a & t & -> & Ha & Ht).
  exists a, (t ++ List.concat (map (cons (cu ".")) ls)).
  split; [reflexivity|]. split; [exact Ha|].
  split; [apply alnum_not_hyphen, Ha | exact Hlast].
Qed.

Lemma validateTarget_alphanumeric_ends_witness :
  validateTarget conversion_throws (VString (lit "good-host.example.com")) = Normal true
  /\ exists c rest, VString (lit "good-host.example.com") = VString (c :: rest)
       /\ is_alnum c = true /\ is_hyphen c = false
       /\ is_alnum (last (c :: rest) 0%N) = true.
Proof.
  assert (H : validateTarget conversion_throws (VString (lit "good-host.example.com"))
              = Normal true) by (vm_compute; reflexivity).
  split; [exact H|].
  exact (@validateTarget_alphanumeric_ends conversion_throws _ H).
Defined.

Lemma to_lower_classes c :
  is_alnum (to_lower c) = is_alnum c
  /\ is_hyphen (to_lower c) = is_hyphen c
  /\ is_dot (to_lower c) = is_dot c.
Proof.
  unfold to_lower. destruct (in_range "A" "Z" c) eqn:E; [|auto].
  unfold is_alnum, is_digit, is_hyphen, is_dot, in_range in *. code_units.
  apply andb_prop in E. destruct E as [E1 E2].
  apply N.leb_le in E1, E2.
  repeat split.
  - replace ((65 <=? c) && (c <=? 90))%N with true
      by (symmetry; apply andb_true_intro; split; apply N.leb_le; lia).
    replace ((97 <=? c + 32) && (c + 32 <=? 122))%N with true
      by (symmetry; apply andb_true_intro; split; apply N.leb_le; lia).
    rewrite orb_true_r. reflexivity.
  - transitivity false; [|symmetry]; apply N.eqb_neq; lia.
  - transitivity false; [|symmetry]; apply N.eqb_neq; lia.
Qed.

Lemma split_dots_map_lower s :
  split_dots (map to_lower s) = map (map to_lower) (split_dots s).
Proof.
  induction s as [|c s IH]; [reflexivity|].
  cbn [map split_dots]. rewrite IH.
  destruct (to_lower_classes c) as (_ & _ & ->).
  destruct (is_dot c); [reflexivity|].
  destruct (split_dots s); reflexivity.
Qed.

Lemma hd_map_lower l : hd 0%N (map to_lower l) = to_lower (hd 0%N l).
Proof. destruct l; reflexivity. Qed.

Lemma last_map_lower l : last (map to_lower l) 0%N = to_lower (last l 0%N).
Proof.
  induction l as [|a l IH]; [reflexivity|].
  destruct l as [|b l]; [reflexivity|]. exact IH.
Qed.

Lemma label_map_lower l : label (map to_lower l) = label l.
Proof.
  unfold label. rewrite length_map, hd_map_lower, last_map_lower.
  destruct (to_lower_classes (hd 0%N l)) as (_ & -> & _).
  destruct (to_lower_classes (last l 0%N)) as (_ & -> & _).
  f_equal. f_equal. f_equal.
  induction l as [|a l IH]; [reflexivity|].
  cbn [map forallb]. rewrite IH.
  destruct (to_lower_classes a) as (-> & -> & _). reflexivity.
Qed.

(** X5.  The validator does not care about letter case: a string and its
    lower-case form are accepted or rejected together (the target itself is
    passed on unchanged). *)
Theorem validateTarget_case_insensitive (other : value -> completion jsstring)
    (s : jsstring) :
  validateTarget other (VString (map to_lower s)) = validateTarget other (VString s).
Proof.
  rewrite !validateTarget_hostname. f_equal. unfold hostname.
  rewrite split_dots_map_lower.
  induction (split_dots s) as [|l ls IH]; [reflexivity|].
  cbn [map forallb]. rewrite label_map_lower, IH. reflexivity.
Qed.

Lemma numeric_label_is_label l : numeric_label l = true -> label l = true.
Proof.
  unfold numeric_label, label. intro H.
  repeat (apply andb_prop in H; let H' := fresh in destruct H as [H H']).
  assert (Hne : l <> []) by (destruct l; [discriminate | discriminate]).
  assert (Hlast := @forallb_last _ is_digit l 0%N Hne H0).
  assert (Hhd : is_digit (hd 0%N l) = true).
  { destruct l as [|a l]; [congruence|]. simpl in H0 |- *.
    apply andb_prop in H0. tauto. }
  rewrite (alnum_not_hyphen _ (digit_is_alnum _ Hhd)).
  rewrite (alnum_not_hyphen _ (digit_is_alnum _ Hlast)).
  assert (Hall : forallb (fun c => is_alnum c || is_hyphen c) l = true).
  { revert H0. apply forallb_impl. intros c Hc.
    rewrite (digit_is_alnum _ Hc). reflexivity. }
  rewrite H, H1, Hall. reflexivity.
Qed.

(** X6.  Numbers are not range-checked: any dot-separated sequence of
    all-digit labels (1 to 63 digits each, any number of them) is accepted,
    whatever the values, so no out-of-range dotted quad is ever refused. *)
Theorem validateTarget_accepts_numeric_labels (other : value -> completion jsstring)
    (l0 : jsstring) (ls : list jsstring) :
  numeric_label l0 = true ->
  forallb numeric_label ls = true ->
  validateTarget other (VString (join_dots l0 ls)) = Normal true.
Proof.
  intros H0 Hls. rewrite validateTarget_hostname. f_equal.
  apply hostname_shape. exists l0, ls. split; [reflexivity|].
  split; [apply numeric_label_is_label, H0|].
  revert Hls. apply forallb_impl. exact numeric_label_is_label.
Qed.

Lemma validateTarget_accepts_numeric_labels_witness :
  numeric_label (lit "999") = true
  /\ forallb numeric_label [lit "999"; lit "999"; lit "999"; lit "999"] = true
  /\ validateTarget conversion_throws (VString (lit "999.999.999.999.999"))
     = Normal true.
Proof.
  assert (H0 : numeric_label (lit "999") = true) by reflexivity.
  assert (Hls : forallb numeric_label [lit "999"; lit "999"; lit "999"; lit "999"]
                = true) by reflexivity.
  split; [exact H0|]. split; [exact Hls|].
  exact (@validateTarget_accepts_numeric_labels conversion_throws _ _ H0 Hls).
Defined.

(* ================================================================== *)
(** ** Further properties of runCommand and of the handlers *)

(** X7.  The standard output of a failed command is not returned: when
    [exec] reports an error, the outcome of [runCommand] is the same
    whatever [stdout] holds, for the same error and the same [stderr]. *)
Theorem runCommand_failure_discards_stdout (platform clock_now : jsstring)
    (answer1 answer2 : jsstring -> Z -> exec_result)
    (command : jsstring) (timeout_arg : option Z) (err : ExecException) :
  let t := match timeout_arg with Some t => t | None => 30000%Z end in
  error (answer1 command t) = Some err ->
  error (answer2 command t) = Some err ->
  stderr (answer1 command t) = stderr (answer2 command t) ->
  run (mkEnvironment platform answer1 clock_now) (runCommand command timeout_arg)
  = run (mkEnvironment platform answer2 clock_now) (runCommand command timeout_arg).
Proof.
  intros t H1 H2 _. rewrite !runCommand_run. cbv zeta. fold t.
  cbn [exec_answer clock]. rewrite H1, H2. reflexivity.
Qed.

Lemma runCommand_failure_discards_stdout_witness :
  let cmd := lit "ping -c 4 example.com" in
  let err := deadline_error cmd in
  let answer1 := fun (_ : jsstring) (_ : Z) => mkExecResult (Some err) [] [] in
  let answer2 := fun (_ : jsstring) (_ : Z) =>
                   mkExecResult (Some err)
                     (lit "PING example.com (93.184.216.34) 56(84) bytes of data.")
                     [] in
  error (answer1 cmd 30000%Z) = Some err
  /\ error (answer2 cmd 30000%Z) = Some err
  /\ stderr (answer1 cmd 30000%Z) = stderr (answer2 cmd 30000%Z)
  /\ run (mkEnvironment (lit "linux") answer1 (lit "2024-05-01T12:00:30.000Z"))
         (runCommand cmd None)
     = run (mkEnvironment (lit "linux") answer2 (lit "2024-05-01T12:00:30.000Z"))
           (runCommand cmd None).
Proof.
  intros cmd err answer1 answer2.
  repeat (split; [reflexivity|]).
  exact (@runCommand_failure_discards_stdout (lit "linux")
           (lit "2024-05-01T12:00:30.000Z") answer1 answer2
           cmd None err eq_refl eq_refl eq_refl).
Defined.

Section MoreHandlerFacts.
Variable other : value -> completion jsstring.

Lemma handler_outcome env req target (h : request -> prog unit) :
  h = ping_handler other \/ h = traceroute_handler other ->
  destructure_target (body req) = Normal target ->
  (validateTarget other target = Normal false
   /\ run env (h req) = ([Send 400 invalid_target_body], Normal tt))
  \/ (exists s cmd t r,
        target = VString s
        /\ validateTarget other target = Normal true
        /\ r = exec_answer env cmd t
        /\ run env (h req)
           = ([Spawn cmd t;
               match error r with
               | Some err => Send 500 (failure_envelope (message err) (clock env))
               | None => Send 200 (success_envelope
                                     (js_or (VString (stdout r)) (VString (stderr r)))
                                     (clock env))
               end], Normal tt)).
Proof.
  intros Hh Hd. destruct (validateTarget_total other target) as ([|] & Hv).
  - right. destruct (validateTarget_true_inv _ _ Hv) as (s & -> & _).
    destruct Hh as [-> | ->].
    + do 4 eexists. split; [reflexivity|]. split; [exact Hv|].
      split; [reflexivity|].
      exact (@ping_handler_run other env req s Hd Hv).
    + do 4 eexists. split; [reflexivity|]. split; [exact Hv|].
      split; [reflexivity|].
      exact (@traceroute_handler_run other env req s Hd Hv).
  - left. split; [exact Hv|]. destruct Hh as [-> | ->].
    + rewrite (@ping_handler_invalid other req target Hd Hv). reflexivity.
    + rewrite (@traceroute_handler_invalid other req target Hd Hv). reflexivity.
Qed.
End MoreHandlerFacts.

(** X8.  Whenever the request body can be destructured, a diagnostic
    handler sends exactly one response; its status is 200, 400 or 500; the
    body's [success] field is [true] exactly when the status is 200; at most
    one process is spawned, none exactly when the status is 400; and the
    handler ends normally. *)
Theorem one_response_per_request (other : value -> completion jsstring)
    (env : environment) (req : request) (target : value)
    (h : request -> prog unit) :
  h = ping_handler other \/ h = traceroute_handler other ->
  destructure_target (body req) = Normal target ->
  exists status b,
    responses (fst (run env (h req))) = [(status, b)]
    /\ (status = 200 \/ status = 400 \/ status = 500)%Z
    /\ success_field b = VBoolean (status =? 200)%Z
    /\ List.length (commands (fst (run env (h req)))) <= 1
    /\ (commands (fst (run env (h req))) = [] <-> status = 400%Z)
    /\ snd (run env (h req)) = Normal tt.
Proof.
  intros Hh Hd.
  destruct (handler_outcome env req Hh Hd)
    as [(_ & ->) | (s & cmd & t & r & _ & _ & _ & ->)].
  - exists 400%Z, invalid_target_body. cbn [fst snd responses commands].
    repeat split; auto.
  - destruct (error r) as [err|].
    + exists 500%Z, (failure_envelope (message err) (clock env)).
      cbn [fst snd responses commands List.length].
      repeat split; auto; try discriminate.
    + exists 200%Z, (success_envelope
                       (js_or (VString (stdout r)) (VString (stderr r)))
                       (clock env)).
      cbn [fst snd responses commands List.length].
      repeat split; auto; try discriminate.
Qed.

Lemma one_response_per_request_witness :
  let req := request_for "example.com" in
  let env := quiet_environment "linux" in
  destructure_target (body req) = Normal (VString (lit "example.com"))
  /\ exists status b,
       responses (fst (run env (ping_handler conversion_throws req))) = [(status, b)]
       /\ success_field b = VBoolean (status =? 200)%Z.
Proof.
  intros req env.
  assert (Hd : destructure_target (body req) = Normal (VString (lit "example.com")))
    by reflexivity.
  split; [exact Hd|].
  destruct (@one_response_per_request conversion_throws env req _
              (ping_handler conversion_throws) (or_introl eq_refl) Hd)
    as (status & b & Hr & _ & Hs & _).
  exists status, b. split; assumption.
Defined.

(** X9.  Only a string is ever run: when the target is of any other type
    (missing, null, a number, an array, an object), both handlers answer 400
    and spawn nothing, even if converting that value to a string would give
    a valid host name. *)
Theorem non_string_target_rejected (other : value -> completion jsstring)
    (env : environment) (req : request) (target : value) :
  destructure_target (body req) = Normal target ->
  (forall s, target <> VString s) ->
  run env (ping_handler other req) = ([Send 400 invalid_target_body], Normal tt)
  /\ run env (traceroute_handler other req)
     = ([Send 400 invalid_target_body], Normal tt).
Proof.
  intros Hd Hns.
  pose proof (validateTarget_not_string other Hns) as Hv.
  rewrite (@ping_handler_invalid other req target Hd Hv),
          (@traceroute_handler_invalid other req target Hd Hv).
  split; reflexivity.
Qed.

Lemma non_string_target_rejected_witness :
  let joins := fun _ : value => Normal (lit "example.com") in
  let target := VArray [VString (lit "example.com")] in
  let req := mkRequest (VObject [("target"%string, target)]) in
  ToString joins target = Normal (lit "example.com")
  /\ destructure_target (body req) = Normal target
  /\ run (quiet_environment "linux") (ping_handler joins req)
     = ([Send 400 invalid_target_body], Normal tt).
Proof.
  intros joins target req.
  assert (Hd : destructure_target (body req) = Normal target) by reflexivity.
  split; [reflexivity|]. split; [exact Hd|].
  refine (proj1 (@non_string_target_rejected joins (quiet_environment "linux")
                   req target Hd _)).
  intros s; discriminate.
Defined.

(** X10.  The destructuring of [req.body] is outside the [try]: when the
    body is [undefined] or [null], a handler throws before it validates,
    spawns or responds, and the exception leaves the handler. *)
Theorem missing_body_escapes (other : value -> completion jsstring)
    (env : environment) (req : request) :
  body req = VUndefined \/ body req = VNull ->
  run env (ping_handler other req) = ([], Throw TypeError)
  /\ run env (traceroute_handler other req) = ([], Throw TypeError).
Proof.
  intros [H | H]; unfold ping_handler, traceroute_handler; rewrite H;
    split; reflexivity.
Qed.

Lemma missing_body_escapes_witness :
  body (mkRequest VUndefined) = VUndefined
  /\ run (quiet_environment "linux") (ping_handler conversion_throws (mkRequest VUndefined))
     = ([], Throw TypeError).
Proof.
  split; [reflexivity|].
  exact (proj1 (@missing_body_escapes conversion_throws (quiet_environment "linux")
                  (mkRequest VUndefined) (or_introl eq_refl))).
Defined.

(** X11.  The health endpoint answers once, with status 200 and
    [status: 'ok'], spawns nothing and ends normally, whatever the
    environment; its [location] is the variable SERVER_LOCATION as it is,
    unless the variable is unset or empty, in which case it is ['unknown']. *)
Theorem health_handler_response (env : environment)
    (SERVER_LOCATION : option jsstring) :
  let location :=
    match SERVER_LOCATION with
    | Some (c :: rest) => c :: rest
    | Some [] | None => lit "unknown"
    end in
  run env (health_handler SERVER_LOCATION)
  = ([Send 200 (VObject [("status"%string, VString (lit "ok"));
                         ("timestamp"%string, VString (clock env));
                         ("location"%string, VString location)])],
     Normal tt).
Proof.
  destruct SERVER_LOCATION as [[|c rest]|]; reflexivity.
Qed.
